(** * pingpong-matching: the page component's local mirror of matches and messages

    A shallow embedding of the client-side bookkeeping of the page component
    (the version that defines [respondMatch], together with the earlier
    variant of the same page where a claim refers to it): the React state
    cells as a record, every handler as a function on that record that also
    returns the backend requests and toasts it issued, and the realtime
    callbacks as functions of the pushed payload. *)

From Stdlib Require Import ZArith Lia.
From stdpp Require Import base option list sorting gmap sets strings pretty.

Local Open Scope string_scope.
Local Open Scope list_scope.
Local Open Scope Z_scope.

(** ** Rows (src/types/supabase.ts, [Tables<...>["Row"]])

    A [number] column is a [Z]; a column typed [T | null] is an [option].
    The handlers test [id != null] although the generated type says
    [id: number], so [id] is an [option] as well: [None] is a missing id. *)

Module MatchRow.
Record t : Type := mk {
  created_at : option string;
  end_at : option string;
  id : option Z;
  start_at : option string;
  status : option string;
  user_a : option string;
  user_b : option string;
  venue_text : option string }.
End MatchRow.

Module MessageRow.
Record t : Type := mk {
  body : string;
  id : option Z;
  match_id : option Z;
  sender_id : option string;
  sent_at : option string }.
End MessageRow.

(** The columns selected by [fetchNextSlotsForUsers]
    ([user_id,start_at,end_at,area_code,venue_hint]). *)
Module SlotRow.
Record t : Type := mk {
  user_id : option string;
  start_at : string;
  end_at : string;
  area_code : option string;
  venue_hint : option string }.
End SlotRow.

(** [type PublicSlot]: the same columns with [user_id] normalised to a
    string. *)
Module PublicSlot.
Record t : Type := mk {
  user_id : string;
  start_at : string;
  end_at : string;
  area_code : option string;
  venue_hint : option string }.
End PublicSlot.

#[global] Instance MatchRow_eq_dec : EqDecision MatchRow.t.
Proof. solve_decision. Defined.
#[global] Instance MessageRow_eq_dec : EqDecision MessageRow.t.
Proof. solve_decision. Defined.
#[global] Instance SlotRow_eq_dec : EqDecision SlotRow.t.
Proof. solve_decision. Defined.
#[global] Instance PublicSlot_eq_dec : EqDecision PublicSlot.t.
Proof. solve_decision. Defined.

(** ** Pieces of the JavaScript runtime the handlers rely on *)

(** [String(n)] for an integer [n]: its decimal numeral. *)
Definition String_of_number (n : Z) : string := pretty n.

(** [s ?? ""] *)
Definition or_empty (s : option string) : string := default "" s.

(** Truthiness of a [string | null | undefined]: the empty string is falsy. *)
Definition truthy (s : option string) : bool :=
  match s with
  | Some s => bool_decide (s ≠ "")
  | None => false
  end.

(** [x === y] on ids. *)
Definition strict_eq (x y : option Z) : bool := bool_decide (x = y).

(** [Array.prototype.sort(compareFn)]. The host's algorithm is not part of
    the repository; for a consistent comparator the language fixes the result:
    the stable arrangement in which [compareFn a b <= 0] for [a] before [b].
    A stable insertion sort computes it. *)
Section Array_sort.
Context {A : Type} (compareFn : A → A → Z).

Fixpoint sort_insert (x : A) (l : list A) : list A :=
  match l with
  | [] => [x]
  | y :: l' =>
      if decide (compareFn x y ≤ 0) then x :: y :: l'
      else y :: sort_insert x l'
  end.

Definition Array_sort (l : list A) : list A := foldr sort_insert [] l.
End Array_sort.

(** The comparator both match lists are sorted with:
    [(a, b) => (a.start_at ?? "").localeCompare(b.start_at ?? "")].
    [localeCompare] is the host's collation and is a parameter throughout. *)
Definition by_start_at (localeCompare : string → string → Z)
    (a b : MatchRow.t) : Z :=
  localeCompare (or_empty (MatchRow.start_at a)) (or_empty (MatchRow.start_at b)).

(** The same comparison on the messages' sort key, [sent_at]. The page never
    sorts messages itself; this is the order the ordering statements about
    messages are read in. *)
Definition by_sent_at (localeCompare : string → string → Z)
    (a b : MessageRow.t) : Z :=
  localeCompare (or_empty (MessageRow.sent_at a)) (or_empty (MessageRow.sent_at b)).

(** "Sorted ascending" for a comparator: each element is at most its
    successor. *)
Definition sorted_by {A : Type} (compareFn : A → A → Z) (l : list A) : Prop :=
  Sorted (λ a b, compareFn a b ≤ 0) l.

#[global] Instance sorted_by_dec {A} (compareFn : A → A → Z) (l : list A) :
  Decision (sorted_by compareFn l).
Proof. unfold sorted_by. apply _. Defined.

(** A concrete collation to run the model with: code-unit order. *)
Definition codeUnitCompare (a b : string) : Z :=
  match String.compare a b with
  | Lt => -1
  | Eq => 0
  | Gt => 1
  end.

(** ** White space

    A text is held as the bytes of its UTF-8 encoding. [String.prototype.trim]
    strips the language's WhiteSpace and LineTerminator code points: the six
    of the ASCII range (U+0009 to U+000D and U+0020), which are one byte
    each; U+00A0, which is the two bytes C2 A0; and U+1680, U+2000 to U+200A,
    U+2028, U+2029, U+202F, U+205F, U+3000 and U+FEFF, which are three bytes
    each. *)
Definition is_space2 (a b : Ascii.ascii) : bool :=
  let a := Ascii.N_of_ascii a in
  let b := Ascii.N_of_ascii b in
  (a =? 194)%N && (b =? 160)%N.

Definition is_space3 (a b c : Ascii.ascii) : bool :=
  let a := Ascii.N_of_ascii a in
  let b := Ascii.N_of_ascii b in
  let c := Ascii.N_of_ascii c in
  if (a =? 225)%N then (b =? 154)%N && (c =? 128)%N
  else if (a =? 226)%N then
    ((b =? 128)%N
     && (((128 <=? c)%N && (c <=? 138)%N)
         || (c =? 168)%N || (c =? 169)%N || (c =? 175)%N))
    || ((b =? 129)%N && (c =? 159)%N)
  else if (a =? 227)%N then (b =? 128)%N && (c =? 128)%N
  else if (a =? 239)%N then (b =? 187)%N && (c =? 191)%N
  else false.

(** [s.trimStart()]: drop white-space code points from the front. *)
Fixpoint trimStart (s : string) : string :=
  match s with
  | String a s1 =>
      if Ascii.is_space a then trimStart s1
      else
        match s1 with
        | String b s2 =>
            if is_space2 a b then trimStart s2
            else
              match s2 with
              | String c s3 => if is_space3 a b c then trimStart s3 else s
              | EmptyString => s
              end
        | EmptyString => s
        end
  | EmptyString => EmptyString
  end.

(** [s.trimEnd()] on the reversed text: the bytes of a trailing white-space
    code point are met last byte first. *)
Fixpoint trimEnd_rev (r : string) : string :=
  match r with
  | String c r1 =>
      if Ascii.is_space c then trimEnd_rev r1
      else
        match r1 with
        | String b r2 =>
            if is_space2 b c then trimEnd_rev r2
            else
              match r2 with
              | String a r3 => if is_space3 a b c then trimEnd_rev r3 else r
              | EmptyString => r
              end
        | EmptyString => r
        end
  | EmptyString => EmptyString
  end.

Definition trimEnd (s : string) : string :=
  String.rev (trimEnd_rev (String.rev s)).

(** [s.trim()] *)
Definition trim (s : string) : string := trimEnd (trimStart s).

(** ** The backend interface

    What a request returns ([{ data, error }]), the requests the page issues,
    and what the realtime channels push. *)

Record Reply (T : Type) : Type := mkReply {
  data : option T;
  error : option string }.
Arguments mkReply {T} _ _.
Arguments data {T} _.
Arguments error {T} _.

(** The query builder's filters: [.eq], [.or], [.in], [.gte]. *)
Inductive Filter : Type :=
| eq_ (column value : string)
| or_ (f g : Filter)
| in_ (column : string) (values : list string)
| gte_ (column value : string).

(** What a handler sends out: a [select] with its filters and ascending
    [order] column, the two writes, and the error toast. *)
Inductive Effect : Type :=
| select_from (table : string) (filters : list Filter) (order : string)
| insert_message (match_id : Z) (sender_id body : string)
| update_match_status (matchId : Z) (status : string)
| toast_error (text : string).

Inductive EventType : Type := INSERT | UPDATE | DELETE.

Record Payload (T : Type) : Type := mkPayload {
  eventType : EventType;
  new : option T;
  old : option T }.
Arguments mkPayload {T} _ _ _.
Arguments eventType {T} _.
Arguments new {T} _.
Arguments old {T} _.

(** The text columns of a [matches] row a filter can name. *)
Definition match_column (column : string) (m : MatchRow.t) : option string :=
  if decide (column = "user_a") then MatchRow.user_a m
  else if decide (column = "user_b") then MatchRow.user_b m
  else if decide (column = "status") then MatchRow.status m
  else if decide (column = "start_at") then MatchRow.start_at m
  else if decide (column = "end_at") then MatchRow.end_at m
  else if decide (column = "id") then String_of_number <$> MatchRow.id m
  else None.

(** Whether a [matches] row passes a filter; [gte_] compares with the given
    collation. *)
Fixpoint satisfies (localeCompare : string → string → Z)
    (f : Filter) (m : MatchRow.t) : bool :=
  match f with
  | eq_ c v => bool_decide (match_column c m = Some v)
  | or_ f g => satisfies localeCompare f m || satisfies localeCompare g m
  | in_ c vs =>
      match match_column c m with
      | Some v => bool_decide (v ∈ vs)
      | None => false
      end
  | gte_ c v =>
      match match_column c m with
      | Some x => bool_decide (localeCompare v x ≤ 0)
      | None => false
      end
  end.

(** ** The page's state cells

    [user] holds [user?.id]; [messageIdsRef] is [messageIdsRef.current]. *)

Record PageState : Type := mkPage {
  user : option string;
  busy : bool;
  msg : option string;
  matches : list MatchRow.t;
  activeMatchId : option Z;
  messages : list MessageRow.t;
  messageIdsRef : gset string;
  chatBody : string;
  nextSlotMap : gmap string (option PublicSlot.t);
  loadingNextSlots : bool }.

Definition setBusy (b : bool) (st : PageState) : PageState :=
  mkPage (user st) b (msg st) (matches st) (activeMatchId st) (messages st)
    (messageIdsRef st) (chatBody st) (nextSlotMap st) (loadingNextSlots st).

Definition setMsg (m : option string) (st : PageState) : PageState :=
  mkPage (user st) (busy st) m (matches st) (activeMatchId st) (messages st)
    (messageIdsRef st) (chatBody st) (nextSlotMap st) (loadingNextSlots st).

(** [setMatches(prev => f(prev))] *)
Definition setMatches (f : list MatchRow.t → list MatchRow.t)
    (st : PageState) : PageState :=
  mkPage (user st) (busy st) (msg st) (f (matches st)) (activeMatchId st)
    (messages st) (messageIdsRef st) (chatBody st) (nextSlotMap st)
    (loadingNextSlots st).

Definition setActiveMatchId (a : option Z) (st : PageState) : PageState :=
  mkPage (user st) (busy st) (msg st) (matches st) a (messages st)
    (messageIdsRef st) (chatBody st) (nextSlotMap st) (loadingNextSlots st).

(** [setMessages(prev => f(prev))] *)
Definition setMessages (f : list MessageRow.t → list MessageRow.t)
    (st : PageState) : PageState :=
  mkPage (user st) (busy st) (msg st) (matches st) (activeMatchId st)
    (f (messages st)) (messageIdsRef st) (chatBody st) (nextSlotMap st)
    (loadingNextSlots st).

(** [messageIdsRef.current = ids] *)
Definition setMessageIds (ids : gset string) (st : PageState) : PageState :=
  mkPage (user st) (busy st) (msg st) (matches st) (activeMatchId st)
    (messages st) ids (chatBody st) (nextSlotMap st) (loadingNextSlots st).

Definition setChatBody (b : string) (st : PageState) : PageState :=
  mkPage (user st) (busy st) (msg st) (matches st) (activeMatchId st)
    (messages st) (messageIdsRef st) b (nextSlotMap st) (loadingNextSlots st).

Definition setNextSlotMap (m : gmap string (option PublicSlot.t))
    (st : PageState) : PageState :=
  mkPage (user st) (busy st) (msg st) (matches st) (activeMatchId st)
    (messages st) (messageIdsRef st) (chatBody st) m (loadingNextSlots st).

Definition setLoadingNextSlots (b : bool) (st : PageState) : PageState :=
  mkPage (user st) (busy st) (msg st) (matches st) (activeMatchId st)
    (messages st) (messageIdsRef st) (chatBody st) (nextSlotMap st) b.

(** The id a message row is recorded under in [messageIdsRef]:
    [row.id != null ? String(row.id) : null]. *)
Definition message_key (m : MessageRow.t) : option string :=
  String_of_number <$> MessageRow.id m.

(** ** Fetches *)

(** [.or(`user_a.eq.${uid},user_b.eq.${uid}`)] *)
Definition fetchMatches_filter (uid : string) : Filter :=
  or_ (eq_ "user_a" uid) (eq_ "user_b" uid).

Definition fetchMatches_request (uid : string) : Effect :=
  select_from "matches" [fetchMatches_filter uid] "start_at".

(** [fetchMatches(uid)]: one select, ordered by [start_at]; the rows are
    stored as they come back. *)
Definition fetchMatches (uid : string) (reply : Reply (list MatchRow.t))
    (st : PageState) : PageState * list Effect :=
  let st' :=
    match error reply, data reply with
    | None, Some rows => setMatches (λ _, rows) st
    | _, _ => st
    end in
  (st', [fetchMatches_request uid]).

(** [fetchMessages(matchId)]: one select, ordered by [sent_at]; on success
    the rows replace [messages] and [messageIdsRef] is rebuilt from their
    ids. *)
Definition fetchMessages_request (matchId : Z) : Effect :=
  select_from "messages" [eq_ "match_id" (String_of_number matchId)] "sent_at".

Definition fetchMessages (matchId : Z) (reply : Reply (list MessageRow.t))
    (st : PageState) : PageState * list Effect :=
  let st' :=
    match error reply, data reply with
    | None, Some rows =>
        let ids : gset string := list_to_set (omap message_key rows) in
        setMessageIds ids (setMessages (λ _, rows) st)
    | _, _ => st
    end in
  (st', [fetchMessages_request matchId]).

(** ** Next free slot per user *)

(** The property names every object inherits from [Object.prototype]: for
    these [map[uid]] is not nullish even when [uid] is not an own key. *)
Definition Object_prototype_keys : list string :=
  [ "constructor"; "hasOwnProperty"; "isPrototypeOf"; "propertyIsEnumerable";
    "toLocaleString"; "toString"; "valueOf"; "__proto__";
    "__defineGetter__"; "__defineSetter__"; "__lookupGetter__";
    "__lookupSetter__" ].

(** [map[uid] == null] *)
Definition nullish_at (map : gmap string (option PublicSlot.t)) (uid : string)
    : bool :=
  match map !! uid with
  | Some (Some _) => false
  | Some None => true
  | None => bool_decide (uid ∉ Object_prototype_keys)
  end.

Definition toPublicSlot (uid : string) (row : SlotRow.t) : PublicSlot.t :=
  PublicSlot.mk uid (SlotRow.start_at row) (SlotRow.end_at row)
    (SlotRow.area_code row) (SlotRow.venue_hint row).

(** One turn of [for (const row of rows)]. *)
Definition nextSlot_step (map : gmap string (option PublicSlot.t))
    (row : SlotRow.t) : gmap string (option PublicSlot.t) :=
  match SlotRow.user_id row with
  | Some uid =>
      if truthy (Some uid) then
        if nullish_at map uid then <[uid := Some (toPublicSlot uid row)]> map
        else map
      else map
  | None => map
  end.

(** [Object.fromEntries(userIds.map(id => [id, null]))] followed by the
    loop. *)
Definition nextSlots (userIds : list string) (rows : list SlotRow.t)
    : gmap string (option PublicSlot.t) :=
  foldl nextSlot_step (list_to_map ((λ id, (id, None)) <$> userIds)) rows.

Definition fetchNextSlots_request (userIds : list string) (nowIso : string)
    : Effect :=
  select_from "availability_slots"
    [in_ "user_id" userIds; gte_ "start_at" nowIso] "start_at".

(** [fetchNextSlotsForUsers(userIds)]. The third component is the error the
    call rejects with, if any; [finally] clears the loading flag on every
    path. *)
Definition fetchNextSlotsForUsers (userIds : list string) (nowIso : string)
    (reply : Reply (list SlotRow.t)) (st : PageState)
    : PageState * list Effect * option string :=
  let st1 := setLoadingNextSlots true st in
  match userIds with
  | [] => (setLoadingNextSlots false (setNextSlotMap ∅ st1), [], None)
  | _ =>
      let req := fetchNextSlots_request userIds nowIso in
      match error reply with
      | Some e => (setLoadingNextSlots false st1, [req], Some e)
      | None =>
          let rows := default [] (data reply) in
          (setLoadingNextSlots false
             (setNextSlotMap (nextSlots userIds rows) st1), [req], None)
      end
  end.

(** ** Overlap of two time ranges

    [getTime s] is [new Date(s).getTime()]; [None] is [NaN], for which every
    comparison is false. *)
Definition number_lt (x y : option Z) : bool :=
  match x, y with
  | Some x, Some y => bool_decide (x < y)
  | _, _ => false
  end.

Definition hasOverlap (getTime : string → option Z)
    (aStart aEnd bStart bEnd : string) : bool :=
  number_lt (getTime aStart) (getTime bEnd)
  && number_lt (getTime bStart) (getTime aEnd).

(** ** Matches: proposing, answering, and the realtime channel *)

(** [handleProposeMatch(toUserId)] on the path where a user is signed in,
    both proposal fields are filled and the insert returned [data]: the new
    row is appended and the list re-sorted, the match is selected, and
    [finally] clears the busy flag. Toasts and the per-user "proposing"
    flags are not modelled; the chat is opened by a separate, non-awaited
    [openChat]. *)
Definition handleProposeMatch_inserted (localeCompare : string → string → Z)
    (data : MatchRow.t) (st : PageState) : PageState :=
  let st1 := setMsg None (setBusy true st) in
  let st2 :=
    setMatches
      (λ prev, Array_sort (by_start_at localeCompare) (prev ++ [data])) st1 in
  let st3 := setMsg (Some "対戦提案を作成しました。") st2 in
  let st4 := setActiveMatchId (MatchRow.id data) st3 in
  setBusy false st4.

(** [prev.map(m => m.id === matchId ? data : m)] *)
Definition replace_by_id (matchId : option Z) (data : MatchRow.t)
    (prev : list MatchRow.t) : list MatchRow.t :=
  (λ m, if strict_eq (MatchRow.id m) matchId then data else m) <$> prev.

(** [handleMatchStatus(matchId, status)]: no check of its own beyond a
    signed-in user and a non-null id. *)
Definition handleMatchStatus (matchId : option Z) (status : string)
    (reply : Reply MatchRow.t) (st : PageState) : PageState * list Effect :=
  match user st, matchId with
  | Some _, Some k =>
      let st1 := setMsg None (setBusy true st) in
      let st2 :=
        match error reply with
        | Some e => setMsg (Some ("ステータス更新に失敗: " +:+ e)) st1
        | None =>
            match data reply with
            | Some row =>
                setMsg (Some ("ステータスを " +:+ status +:+ " に更新しました。"))
                  (setMatches (replace_by_id matchId row) st1)
            | None => st1
            end
        end in
      (setBusy false st2, [update_match_status k status])
  | _, _ => (st, [])
  end.

(** [isReceiver(m)]: [!!me && m.user_b === me] with [me = user?.id]. *)
Definition isReceiver (st : PageState) (m : MatchRow.t) : bool :=
  truthy (user st) && bool_decide (MatchRow.user_b m = user st).

(** [canRespond(m)]: [isReceiver(m) && m.status === "pending"]. *)
Definition canRespond (st : PageState) (m : MatchRow.t) : bool :=
  isReceiver st m && bool_decide (MatchRow.status m = Some "pending").

(** The two answers [respondMatch] accepts. *)
Inductive Answer : Type := confirmed | cancelled.

Definition Answer_status (a : Answer) : string :=
  match a with
  | confirmed => "confirmed"
  | cancelled => "cancelled"
  end.

(** [respondMatch(m, next)] *)
Definition respondMatch (m : MatchRow.t) (next : Answer)
    (reply : Reply MatchRow.t) (st : PageState) : PageState * list Effect :=
  if canRespond st m then
    handleMatchStatus (MatchRow.id m) (Answer_status next) reply st
  else
    (st, [toast_error "承諾・辞退できるのは提案の受信者（pendingのみ）です"]).

(** A click on 承諾 / 辞退 in the matches table: the buttons are rendered
    under [canRespond(m)] and disabled while [busy || m.id == null]. *)
Definition respond_click (m : MatchRow.t) (next : Answer)
    (reply : Reply MatchRow.t) (st : PageState) : PageState * list Effect :=
  if canRespond st m && negb (busy st) && bool_decide (is_Some (MatchRow.id m))
  then respondMatch m next reply st
  else (st, []).

(** The earlier variant of the page (src/unnamed/part_000, the one without
    [respondMatch]; src/app/page.tsx gates its buttons the same way): the
    buttons are rendered under [m.status === "pending"] alone, disabled while
    [busy || m.id == null], and call [handleMatchStatus] directly. Its
    [handleMatchStatus] is the one above. *)
Module EarlierPage.
Definition respond_click (m : MatchRow.t) (next : Answer)
    (reply : Reply MatchRow.t) (st : PageState) : PageState * list Effect :=
  if bool_decide (MatchRow.status m = Some "pending")
     && negb (busy st) && bool_decide (is_Some (MatchRow.id m))
  then handleMatchStatus (MatchRow.id m) (Answer_status next) reply st
  else (st, []).
End EarlierPage.

(** [payload.new ?? payload.old] *)
Definition pushed_row {T : Type} (payload : Payload T) : option T :=
  match new payload with
  | Some r => Some r
  | None => old payload
  end.

(** [row.user_a === user.id || row.user_b === user.id] *)
Definition involvesMe (uid : string) (row : MatchRow.t) : bool :=
  bool_decide (MatchRow.user_a row = Some uid)
  || bool_decide (MatchRow.user_b row = Some uid).

(** The updater the matches channel passes to [setMatches]. *)
Definition matches_updater (localeCompare : string → string → Z)
    (payload : Payload MatchRow.t) (prev : list MatchRow.t)
    : list MatchRow.t :=
  let next :=
    match eventType payload with
    | INSERT =>
        match new payload with
        | Some rowNew =>
            if existsb (λ m, strict_eq (MatchRow.id m) (MatchRow.id rowNew)) prev
            then prev else prev ++ [rowNew]
        | None => prev
        end
    | UPDATE =>
        match new payload with
        | Some rowNew => replace_by_id (MatchRow.id rowNew) rowNew prev
        | None => prev
        end
    | DELETE =>
        match old payload with
        | Some rowOld =>
            filter (λ m, MatchRow.id m ≠ MatchRow.id rowOld) prev
        | None => prev
        end
    end in
  Array_sort (by_start_at localeCompare) next.

(** The callback of the [matches:${user.id}] channel, subscribed to every
    event of the table; [uid] is the [user.id] it closes over. *)
Definition matches_onChange (localeCompare : string → string → Z)
    (uid : string) (payload : Payload MatchRow.t) (st : PageState)
    : PageState :=
  match pushed_row payload with
  | None => st
  | Some row =>
      if involvesMe uid row
      then setMatches (matches_updater localeCompare payload) st
      else st
  end.

(** ** Chat *)

(** [openChat(matchId)]: select the match, clear the draft, load the log.
    (The channel it then subscribes calls [chat_onInsert].) *)
Definition openChat (matchId : Z) (reply : Reply (list MessageRow.t))
    (st : PageState) : PageState * list Effect :=
  fetchMessages matchId reply (setChatBody "" (setActiveMatchId (Some matchId) st)).

(** [messageIdsRef.current.add(id)] *)
Definition addMessageId (id : string) (st : PageState) : PageState :=
  setMessageIds ({[ id ]} ∪ messageIdsRef st) st.

(** The callback of the [messages:${matchId}] channel (INSERT events of the
    open match). *)
Definition chat_onInsert (payload : Payload MessageRow.t) (st : PageState)
    : PageState :=
  match new payload with
  | None => st
  | Some row =>
      let id := message_key row in
      let has :=
        match id with
        | Some k => bool_decide (k ∈ messageIdsRef st)
        | None => false
        end in
      if negb (truthy id) || negb has then
        let st1 :=
          match id with
          | Some k => if truthy id then addMessageId k st else st
          | None => st
          end in
        setMessages (λ prev, prev ++ [row]) st1
      else st
  end.

(** [handleSendMessage()]: the insert's reply is applied at once; the id is
    recorded first so that the later notification of the same row is
    recognised. *)
Definition handleSendMessage (reply : Reply MessageRow.t) (st : PageState)
    : PageState * list Effect :=
  match user st, activeMatchId st with
  | Some userId, Some matchId =>
      if negb (truthy (Some userId)) then (st, [])
      else
        let body := trim (chatBody st) in
        if bool_decide (body = "") then (st, [])
        else
          let st1 := setBusy true st in
          let st2 :=
            match error reply with
            | Some e => setMsg (Some ("メッセージ送信に失敗: " +:+ e)) st1
            | None =>
                let st1' :=
                  match data reply with
                  | Some row =>
                      let st1'' :=
                        match message_key row with
                        | Some k => addMessageId k st1
                        | None => st1
                        end in
                      setMessages (λ prev, prev ++ [row]) st1''
                  | None => st1
                  end in
                setChatBody "" st1'
            end in
          (setBusy false st2, [insert_message matchId userId body])
  | _, _ => (st, [])
  end.

(** ** Notions the statements below are phrased in *)

(** How often a message id occurs in a list of messages. *)
Definition count_id (k : Z) (l : list MessageRow.t) : nat :=
  length (filter (λ m, MessageRow.id m = Some k) l).

(** [x < y] on time values, in [Prop]: both are numbers and [x] is smaller. *)
Definition time_lt (x y : option Z) : Prop :=
  ∃ tx ty, x = Some tx ∧ y = Some ty ∧ tx < ty.

(** The instants of the half-open range from [s] to [e]. *)
Definition in_range (s e t : Z) : Prop := s ≤ t ∧ t < e.

(** A toy clock to run [hasOverlap] with: a string of decimal digits is that
    many milliseconds, anything else is an invalid date. *)
Fixpoint digits_value (acc : Z) (s : string) : option Z :=
  match s with
  | EmptyString => Some acc
  | String a s' =>
      match Ascii.is_nat a with
      | Some d => digits_value (10 * acc + Z.of_nat d) s'
      | None => None
      end
  end.

Definition millis (s : string) : option Z :=
  match s with
  | EmptyString => None
  | _ => digits_value 0 s
  end.

(** Everything that writes the matches list while [uid] is signed in. *)
Inductive MatchesEvent : Type :=
| fetched (reply : Reply (list MatchRow.t))
| proposed (data : MatchRow.t)
| answered (matchId : option Z) (status : string) (reply : Reply MatchRow.t)
| pushed (payload : Payload MatchRow.t).

Definition apply_event (localeCompare : string → string → Z) (uid : string)
    (st : PageState) (ev : MatchesEvent) : PageState :=
  match ev with
  | fetched reply => fst (fetchMatches uid reply st)
  | proposed data => handleProposeMatch_inserted localeCompare data st
  | answered matchId status reply =>
      fst (handleMatchStatus matchId status reply st)
  | pushed payload => matches_onChange localeCompare uid payload st
  end.

(** Whether a [matches] row is one a request asks for: a select asks for
    the rows that pass every one of its filters, the other requests ask for
    no rows. *)
Definition requested_by (localeCompare : string → string → Z)
    (request : Effect) (m : MatchRow.t) : bool :=
  match request with
  | select_from table filters _ =>
      bool_decide (table = "matches")
      && forallb (λ f, satisfies localeCompare f m) filters
  | _ => false
  end.

(** What a backend that answers the request it was sent returns: fetched
    rows are rows that the request [fetchMatches] sent asks for, the row
    returned for a proposal has the proposer as [user_a], and the row
    returned for a status update is one of the user's matches. Pushed
    events are not constrained. *)
Definition honours_request (localeCompare : string → string → Z)
    (uid : string) (st : PageState) (ev : MatchesEvent) : Prop :=
  match ev with
  | fetched reply =>
      ∀ rows, data reply = Some rows →
        Forall (λ m, ∀ request, request ∈ snd (fetchMatches uid reply st) →
                     requested_by localeCompare request m = true) rows
  | proposed data => MatchRow.user_a data = Some uid
  | answered _ _ reply =>
      ∀ row, data reply = Some row → involvesMe uid row = true
  | pushed _ => True
  end.

(** A run of events in which every reply honours the request sent from the
    state the page was in at that point. *)
Fixpoint backend_honours (localeCompare : string → string → Z)
    (uid : string) (st : PageState) (events : list MatchesEvent) : Prop :=
  match events with
  | [] => True
  | ev :: events =>
      honours_request localeCompare uid st ev
      ∧ backend_honours localeCompare uid
          (apply_event localeCompare uid st ev) events
  end.

(** The first fetched row of a user, and the comparison of two slots by
    [start_at]. *)
Definition first_slot (uid : string) (rows : list SlotRow.t)
    : option SlotRow.t :=
  head (filter (λ r, SlotRow.user_id r = Some uid) rows).

Definition by_slot_start (localeCompare : string → string → Z)
    (a b : SlotRow.t) : Z :=
  localeCompare (SlotRow.start_at a) (SlotRow.start_at b).

(** ** Sample data the statements are run on *)

(** Alice is signed in and has the chat of match 1 open with a draft. *)
Definition page0 : PageState :=
  mkPage (Some "alice") false None [] (Some 1) [] ∅ "hi" ∅ false.

Definition msg7 : MessageRow.t :=
  MessageRow.mk "hi" (Some 7) (Some 1) (Some "alice")
    (Some "2025-01-01T10:00:03+00:00").

Definition msg8 : MessageRow.t :=
  MessageRow.mk "hello" (Some 8) (Some 1) (Some "bob")
    (Some "2025-01-01T10:00:05+00:00").

Definition msg_no_id : MessageRow.t :=
  MessageRow.mk "hello" None (Some 1) (Some "bob")
    (Some "2025-01-01T10:00:05+00:00").

(** Two pending proposals involving Alice: one she made to Bob, one Carol
    made to her. *)
Definition m5 : MatchRow.t :=
  MatchRow.mk (Some "2025-01-01T09:00:00+00:00")
    (Some "2025-01-10T11:00:00+00:00") (Some 5)
    (Some "2025-01-10T10:00:00+00:00") (Some "pending")
    (Some "alice") (Some "bob") None.

Definition m6 : MatchRow.t :=
  MatchRow.mk (Some "2025-01-02T09:00:00+00:00")
    (Some "2025-01-08T11:00:00+00:00") (Some 6)
    (Some "2025-01-08T10:00:00+00:00") (Some "pending")
    (Some "carol") (Some "alice") None.

Definition page_m5 : PageState :=
  mkPage (Some "alice") false None [m5] None [] ∅ "" ∅ false.

(** A delete notification that carries the deleted row's key only. *)
Definition m5_key_only : MatchRow.t :=
  MatchRow.mk None None (Some 5) None None None None None.

Definition delete5_key_only : Payload MatchRow.t :=
  mkPayload DELETE None (Some m5_key_only).

(** The delete notification as the realtime client hands it over: [new] is
    the empty object [{}], on which every column reads [undefined], and
    [old] is the deleted row, whole or its key only. *)
Definition no_columns : MatchRow.t :=
  MatchRow.mk None None None None None None None None.

Definition delete5 : Payload MatchRow.t :=
  mkPayload DELETE (Some no_columns) (Some m5).

Definition delete5_key : Payload MatchRow.t :=
  mkPayload DELETE (Some no_columns) (Some m5_key_only).

(** Alice's page with both proposals listed. *)
Definition page_m6_m5 : PageState :=
  mkPage (Some "alice") false None [m6; m5] None [] ∅ "" ∅ false.

(** A match of Alice's that has no start time yet. A fetch ordered by
    [start_at] hands such a row back last; the page's comparator puts it
    first. *)
Definition m4_unscheduled : MatchRow.t :=
  MatchRow.mk (Some "2025-01-01T08:00:00+00:00") None (Some 4) None
    (Some "pending") (Some "alice") (Some "dave") None.

(** A proposal between two other users. *)
Definition m9 : MatchRow.t :=
  MatchRow.mk (Some "2025-01-03T09:00:00+00:00")
    (Some "2025-01-09T11:00:00+00:00") (Some 9)
    (Some "2025-01-09T10:00:00+00:00") (Some "pending")
    (Some "carol") (Some "dave") None.

(** The backend's row for match 5 once it is confirmed. *)
Definition m5_confirmed : MatchRow.t :=
  MatchRow.mk (Some "2025-01-01T09:00:00+00:00")
    (Some "2025-01-10T11:00:00+00:00") (Some 5)
    (Some "2025-01-10T10:00:00+00:00") (Some "confirmed")
    (Some "alice") (Some "bob") None.

(** Fetched slots: two of user u1, one without a user, one of the user whose
    id is the empty string. *)
Definition slot_u1_early : SlotRow.t :=
  SlotRow.mk (Some "u1") "2025-02-01T10:00:00+00:00"
    "2025-02-01T11:00:00+00:00" (Some "13") None.

Definition slot_u1_late : SlotRow.t :=
  SlotRow.mk (Some "u1") "2025-02-03T10:00:00+00:00"
    "2025-02-03T11:00:00+00:00" (Some "13") None.

Definition slot_nobody : SlotRow.t :=
  SlotRow.mk None "2025-02-02T10:00:00+00:00"
    "2025-02-02T11:00:00+00:00" None None.

Definition slot_empty_id : SlotRow.t :=
  SlotRow.mk (Some "") "2025-02-02T10:00:00+00:00"
    "2025-02-02T11:00:00+00:00" None None.

(** ** The rest of the page: rows, payloads and what the handlers send *)

Module ProfileRow.
Record t : Type := mk {
  area_code : option string;
  avatar_url : option string;
  bio : option string;
  created_at : option string;
  gender : option string;
  hand : option string;
  level : option Z;
  nickname : option string;
  play_style : option string;
  purpose : option (list string);
  user_id : string;
  years : option Z }.
End ProfileRow.

(** A full row of [availability_slots]; as for the other rows, the handlers
    guard [id == null]. *)
Module AvailabilitySlot.
Record t : Type := mk {
  area_code : option string;
  created_at : option string;
  end_at : string;
  id : option Z;
  is_recurring : option bool;
  recur_dow : option Z;
  recur_end : option string;
  recur_start : option string;
  start_at : string;
  user_id : option string;
  venue_hint : option string }.
End AvailabilitySlot.

(** The payloads the handlers build. *)
Module ProfileInsert.
Record t : Type := mk {
  user_id : string;
  nickname : option string;
  avatar_url : option string }.
End ProfileInsert.

Module ProfilePatch.
Record t : Type := mk {
  nickname : option string;
  level : option Z;
  area_code : option string;
  gender : option string;
  hand : option string;
  play_style : option string;
  years : option Z;
  purpose : option (list string);
  avatar_url : option string }.
End ProfilePatch.

Module SlotInsert.
Record t : Type := mk {
  user_id : string;
  start_at : string;
  end_at : string;
  area_code : string;
  venue_hint : option string;
  is_recurring : bool }.
End SlotInsert.

Module MatchInsert.
Record t : Type := mk {
  user_a : string;
  user_b : string;
  start_at : string;
  end_at : string;
  venue_text : option string;
  status : string }.
End MatchInsert.

(** The signed-in [User] as [ensureProfile] reads it: [user.id],
    [user.user_metadata?.name] and [user.user_metadata?.avatar_url]. *)
Module User.
Record t : Type := mk {
  id : string;
  name : option string;
  avatar_url : option string }.
End User.

(** Requests and toasts of the handlers below. *)
Inductive Action : Type :=
| select_profile (uid : string)
| insert_profile (p : ProfileInsert.t)
| update_profile (uid : string) (patch : ProfilePatch.t)
| select_slots (uid : string)
| insert_slot (p : SlotInsert.t)
| delete_slot (slotId : Z) (uid : string)
| insert_match (p : MatchInsert.t)
| toast_error_text (text : string)
| toast_success_text (text : string)
| focus_proposalStart
| focus_proposalEnd.

(** [s || null] *)
Definition or_null (s : string) : option string :=
  if bool_decide (s = "") then None else Some s.

(** [x >= y] on time values; false when either is [NaN]. *)
Definition number_ge (x y : option Z) : bool :=
  match x, y with
  | Some x, Some y => bool_decide (y ≤ x)
  | _, _ => false
  end.

(** [new Date(s).toISOString()]: the ISO text of the time value, or a
    thrown [RangeError] ([None]) when the date is invalid. [isoOf] is the
    host's formatting of a time value. *)
Definition Date_toISOString (getTime : string → option Z) (isoOf : Z → string)
    (s : string) : option string :=
  isoOf <$> getTime s.

(** The message of that [RangeError]. *)
Definition RangeError_message : string := "Invalid time value".

(** ** The profile form *)

(** The form's cells; [level] and [years] are [number | ""], with [None]
    for the empty string. *)
Module ProfileForm.
Record t : Type := mk {
  nickname : string;
  level : option Z;
  areaCode : string;
  gender : option string;
  hand : option string;
  playingStyle : option string;
  years : option Z;
  purpose : list string;
  avatarUrl : string }.
End ProfileForm.

(** [hydrateFormFromProfile(pf)], for a [purpose] column of the generated
    type ([string[] | null]). *)
Definition hydrateFormFromProfile (pf : ProfileRow.t) : ProfileForm.t :=
  ProfileForm.mk
    (or_empty (ProfileRow.nickname pf))
    (ProfileRow.level pf)
    (or_empty (ProfileRow.area_code pf))
    (ProfileRow.gender pf)
    (ProfileRow.hand pf)
    (ProfileRow.play_style pf)
    (ProfileRow.years pf)
    (default [] (ProfileRow.purpose pf))
    (or_empty (ProfileRow.avatar_url pf)).

(** [resetForm()] *)
Definition resetForm : ProfileForm.t :=
  ProfileForm.mk "" None "" None None None None [] "".

(** The [patch] of [handleSaveProfile]. *)
Definition profilePatch (f : ProfileForm.t) : ProfilePatch.t :=
  ProfilePatch.mk
    (or_null (ProfileForm.nickname f))
    (ProfileForm.level f)
    (or_null (ProfileForm.areaCode f))
    (ProfileForm.gender f)
    (ProfileForm.hand f)
    (ProfileForm.playingStyle f)
    (ProfileForm.years f)
    (match ProfileForm.purpose f with [] => None | l => Some l end)
    (or_null (ProfileForm.avatarUrl f)).

(** [handleSaveProfile()]: one update of the user's own row; the returned
    row re-hydrates the form. *)
Definition handleSaveProfile (reply : Reply ProfileRow.t)
    (st : PageState) (f : ProfileForm.t)
    : PageState * ProfileForm.t * list Action :=
  match user st with
  | None => (st, f, [])
  | Some uid =>
      let st1 := setMsg None (setBusy true st) in
      let req := update_profile uid (profilePatch f) in
      match error reply with
      | Some e =>
          (setBusy false (setMsg (Some ("プロフィール保存に失敗: " +:+ e)) st1),
           f, [req])
      | None =>
          match data reply with
          | Some row =>
              (setBusy false (setMsg (Some "プロフィールを保存しました。") st1),
               hydrateFormFromProfile row,
               [req; toast_success_text "保存しました"])
          | None => (setBusy false st1, f, [req])
          end
      end
  end.

(** The row a backend that stores the patch hands back: the patched
    columns are the patch's, the others are the stored row's. *)
Definition patched_row (patch : ProfilePatch.t) (pf : ProfileRow.t)
    : ProfileRow.t :=
  ProfileRow.mk
    (ProfilePatch.area_code patch)
    (ProfilePatch.avatar_url patch)
    (ProfileRow.bio pf)
    (ProfileRow.created_at pf)
    (ProfilePatch.gender patch)
    (ProfilePatch.hand patch)
    (ProfilePatch.level patch)
    (ProfilePatch.nickname patch)
    (ProfilePatch.play_style patch)
    (ProfilePatch.purpose patch)
    (ProfileRow.user_id pf)
    (ProfilePatch.years patch).

(** [PurposePicker]'s [toggle(v)]: the list handed to [onChange]. *)
Definition toggle (value : list string) (v : string) : list string :=
  if bool_decide (v ∈ value) then filter (λ x, x ≠ v) value
  else value ++ [v].

(** [ensureProfile(user)]: look the profile up, insert one if there is
    none. The result is the profile or the error it throws. *)
Definition ensureProfile (u : User.t) (found : Reply ProfileRow.t)
    (inserted : Reply ProfileRow.t) : (ProfileRow.t + string) * list Action :=
  let find := select_profile (User.id u) in
  match error found with
  | Some e => (inr e, [find])
  | None =>
      match data found with
      | Some pf => (inl pf, [find])
      | None =>
          let payload :=
            ProfileInsert.mk (User.id u) (User.name u) (User.avatar_url u) in
          let ins := insert_profile payload in
          match error inserted with
          | Some e => (inr e, [find; ins])
          | None =>
              match data inserted with
              | Some pf => (inl pf, [find; ins])
              | None => (inr "Failed to insert profile", [find; ins])
              end
          end
      end
  end.

(** ** Candidates for a proposal *)

(** [s.includes(sub)] *)
Fixpoint String_includes (s sub : string) : bool :=
  String.prefix sub s
  || match s with
     | String _ s' => String_includes s' sub
     | EmptyString => false
     end.

(** [filteredUsers] *)
Definition filteredUsers (allUsers : list ProfileRow.t) (userFilter : string)
    : list ProfileRow.t :=
  if bool_decide (userFilter = "") then allUsers
  else
    filter
      (λ u, String_includes (or_empty (ProfileRow.nickname u)) userFilter
            || String_includes (or_empty (ProfileRow.area_code u)) userFilter
            = true)
      allUsers.

(** [nextSlotMap[uid]] on the plain object: an own binding to a slot or to
    null, nothing at all, or a member inherited from [Object.prototype]. *)
Inductive Looked : Type :=
| looked_slot (s : PublicSlot.t)
| looked_null
| looked_undefined
| looked_inherited.

Definition lookup_nextSlot (map : gmap string (option PublicSlot.t))
    (uid : string) : Looked :=
  match map !! uid with
  | Some (Some s) => looked_slot s
  | Some None => looked_null
  | None =>
      if bool_decide (uid ∈ Object_prototype_keys) then looked_inherited
      else looked_undefined
  end.

(** [!!(ns && hasOverlap(proposalStart, proposalEnd, ns.start_at, ns.end_at))]
    with [ns = nextSlotMap[uid] ?? null]. An inherited member has no
    [start_at], and [new Date(undefined)] is invalid. *)
Definition overlaps_proposal (getTime : string → option Z)
    (map : gmap string (option PublicSlot.t))
    (proposalStart proposalEnd : string) (uid : string) : bool :=
  match lookup_nextSlot map uid with
  | looked_slot ns =>
      hasOverlap getTime proposalStart proposalEnd
        (PublicSlot.start_at ns) (PublicSlot.end_at ns)
  | looked_inherited =>
      number_lt (getTime proposalStart) None
      && number_lt None (getTime proposalEnd)
  | looked_null | looked_undefined => false
  end.

(** [displayUsers] *)
Definition displayUsers (getTime : string → option Z)
    (showOverlapOnly : bool) (filtered : list ProfileRow.t)
    (map : gmap string (option PublicSlot.t))
    (proposalStart proposalEnd : string) : list ProfileRow.t :=
  if negb showOverlapOnly then filtered
  else if bool_decide (proposalStart = "") || bool_decide (proposalEnd = "")
  then filtered
  else
    filter
      (λ u, overlaps_proposal getTime map proposalStart proposalEnd
              (ProfileRow.user_id u) = true)
      filtered.

(** The [overlap] flag of a row of the candidates table. *)
Definition row_overlap (getTime : string → option Z)
    (map : gmap string (option PublicSlot.t))
    (proposalStart proposalEnd : string) (u : ProfileRow.t) : bool :=
  negb (bool_decide (proposalStart = ""))
  && negb (bool_decide (proposalEnd = ""))
  && overlaps_proposal getTime map proposalStart proposalEnd
       (ProfileRow.user_id u).

(** [!nextSlotMap[uid]] *)
Definition no_slot_at (map : gmap string (option PublicSlot.t)) (uid : string)
    : bool :=
  match lookup_nextSlot map uid with
  | looked_slot _ | looked_inherited => false
  | looked_null | looked_undefined => true
  end.

(** [noNextSlotsVisible] *)
Definition noNextSlotsVisible (loading : bool) (filtered : list ProfileRow.t)
    (map : gmap string (option PublicSlot.t)) : bool :=
  if loading || bool_decide (filtered = []) then false
  else forallb (λ u, no_slot_at map (ProfileRow.user_id u)) filtered.

(** [invalidRange] and [invalidAvailRange]: both fields filled and the
    start not before the end. *)
Definition invalidRange (getTime : string → option Z)
    (startText endText : string) : bool :=
  if bool_decide (startText = "") || bool_decide (endText = "") then false
  else number_ge (getTime startText) (getTime endText).

(** [pastAvailStart]: a memo keyed on [startAt] alone, so its body runs in
    the render that follows a change of the start field and the value is
    kept until the field changes again. [memoNow] is what [Date.now()]
    returned in that render: the time the start field was last changed,
    not the time the value is read. *)
Definition pastAvailStart (getTime : string → option Z) (memoNow : Z)
    (startText : string) : bool :=
  if bool_decide (startText = "") then false
  else number_lt (getTime startText) (Some memoNow).

(** ** Proposing a match *)

(** [handleProposeMatch(toUserId)] with the proposal fields as arguments.
    The "proposing" flags, the progress toast and the non-awaited
    [openChat] are not modelled. *)
Definition handleProposeMatch (localeCompare : string → string → Z)
    (getTime : string → option Z) (isoOf : Z → string)
    (toUserId proposalStart proposalEnd proposalVenue : string)
    (reply : Reply MatchRow.t) (st : PageState) : PageState * list Action :=
  match user st with
  | None => (st, [])
  | Some uid =>
      if bool_decide (proposalStart = "") then
        (setMsg (Some "提案には開始/終了が必要です") st,
         [toast_error_text "開始（提案）を入力してください"; focus_proposalStart])
      else if bool_decide (proposalEnd = "") then
        (setMsg (Some "提案には開始/終了が必要です") st,
         [toast_error_text "終了（提案）を入力してください"; focus_proposalEnd])
      else
        let st1 := setMsg None (setBusy true st) in
        match Date_toISOString getTime isoOf proposalStart,
              Date_toISOString getTime isoOf proposalEnd with
        | Some startIso, Some endIso =>
            let payload :=
              MatchInsert.mk uid toUserId startIso endIso
                (or_null proposalVenue) "pending" in
            let st2 :=
              match error reply with
              | Some e => setMsg (Some ("提案の作成に失敗: " +:+ e)) st1
              | None =>
                  match data reply with
                  | Some row =>
                      setActiveMatchId (MatchRow.id row)
                        (setMsg (Some "対戦提案を作成しました。")
                           (setMatches
                              (λ prev,
                                 Array_sort (by_start_at localeCompare)
                                   (prev ++ [row]))
                              st1))
                  | None => st1
                  end
              end in
            (setBusy false st2, [insert_match payload])
        | _, _ =>
            (setBusy false
               (setMsg (Some ("提案の作成に失敗: " +:+ RangeError_message)) st1),
             [])
        end
  end.

(** A click on 提案 in the candidates table: the button is disabled while
    [busy || !proposalStart || !proposalEnd || invalidRange]. (It is also
    disabled while the candidate's own "proposing" flag is set; that flag
    is not modelled, so this click is allowed at least as often as the
    button's.) *)
Definition propose_click (localeCompare : string → string → Z)
    (getTime : string → option Z) (isoOf : Z → string)
    (toUserId proposalStart proposalEnd proposalVenue : string)
    (reply : Reply MatchRow.t) (st : PageState) : PageState * list Action :=
  if busy st || bool_decide (proposalStart = "")
     || bool_decide (proposalEnd = "")
     || invalidRange getTime proposalStart proposalEnd
  then (st, [])
  else handleProposeMatch localeCompare getTime isoOf toUserId
         proposalStart proposalEnd proposalVenue reply st.

(** ** The user's own availability *)

Record SlotsPanel : Type := mkSlots {
  slots : list AvailabilitySlot.t;
  startAt : string;
  endAt : string;
  slotArea : string;
  venueHint : string;
  isRecurring : bool }.

Definition setSlots (f : list AvailabilitySlot.t → list AvailabilitySlot.t)
    (p : SlotsPanel) : SlotsPanel :=
  mkSlots (f (slots p)) (startAt p) (endAt p) (slotArea p) (venueHint p)
    (isRecurring p).

(** [(a, b) => (a.start_at ?? "").localeCompare(b.start_at ?? "")] on slots,
    whose [start_at] is a string. *)
Definition by_slot_start_at (localeCompare : string → string → Z)
    (a b : AvailabilitySlot.t) : Z :=
  localeCompare (AvailabilitySlot.start_at a) (AvailabilitySlot.start_at b).

(** [fetchSlots(uid)] *)
Definition fetchSlots (uid : string) (reply : Reply (list AvailabilitySlot.t))
    (p : SlotsPanel) : SlotsPanel * list Action :=
  (match error reply, data reply with
   | None, Some rows => setSlots (λ _, rows) p
   | _, _ => p
   end, [select_slots uid]).

(** [handleAddSlot()]. The handler reads the two memos [invalidAvailRange]
    and [pastAvailStart] of the render it was created in; the first depends
    on the two fields only, the second also on [memoNow], the clock reading
    taken when the start field was last changed. The handler itself never
    reads the clock, so the time of the click does not enter. *)
Definition handleAddSlot (localeCompare : string → string → Z)
    (getTime : string → option Z) (isoOf : Z → string) (memoNow : Z)
    (reply : Reply AvailabilitySlot.t) (st : PageState) (p : SlotsPanel)
    : PageState * SlotsPanel * list Action :=
  match user st with
  | None => (st, p, [])
  | Some uid =>
      let st1 := setMsg None (setBusy true st) in
      if bool_decide (startAt p = "") || bool_decide (endAt p = "")
         || bool_decide (slotArea p = "")
      then (setBusy false (setMsg (Some "開始/終了日時とエリアは必須です") st1),
            p, [])
      else if invalidRange getTime (startAt p) (endAt p)
      then (setBusy false
              (setMsg (Some "終了は開始より後の日時にしてください") st1), p, [])
      else if pastAvailStart getTime memoNow (startAt p)
      then (setBusy false
              (setMsg (Some "開始日時が過去です。未来の日時を指定してください") st1),
            p, [])
      else
        match Date_toISOString getTime isoOf (startAt p),
              Date_toISOString getTime isoOf (endAt p) with
        | Some startIso, Some endIso =>
            let payload :=
              SlotInsert.mk uid startIso endIso (slotArea p)
                (or_null (venueHint p)) (isRecurring p) in
            match error reply with
            | Some e =>
                (setBusy false
                   (setMsg (Some ("空き時間の追加に失敗: " +:+ e)) st1),
                 p, [insert_slot payload])
            | None =>
                match data reply with
                | Some row =>
                    (setBusy false (setMsg (Some "空き時間を追加しました。") st1),
                     mkSlots
                       (Array_sort (by_slot_start_at localeCompare)
                          (slots p ++ [row]))
                       "" "" "" "" false,
                     [insert_slot payload])
                | None => (setBusy false st1, p, [insert_slot payload])
                end
            end
        | _, _ =>
            (setBusy false
               (setMsg (Some ("空き時間の追加に失敗: " +:+ RangeError_message))
                  st1),
             p, [])
        end
  end.

(** [handleDeleteSlot(slotId)] *)
Definition handleDeleteSlot (slotId : option Z) (reply : Reply unit)
    (st : PageState) (p : SlotsPanel) : PageState * SlotsPanel * list Action :=
  match slotId, user st with
  | Some k, Some uid =>
      let st1 := setMsg None (setBusy true st) in
      match error reply with
      | Some e =>
          (setBusy false (setMsg (Some ("削除に失敗: " +:+ e)) st1), p,
           [delete_slot k uid])
      | None =>
          (setBusy false (setMsg (Some "削除しました。") st1),
           setSlots (filter (λ s, AvailabilitySlot.id s ≠ slotId)) p,
           [delete_slot k uid])
      end
  | _, _ => (st, p, [])
  end.

(** ** The chat over time *)

(** The other participant shown in the chat header and the matches table:
    [m.user_a === user.id ? m.user_b : m.user_a]. *)
Definition otherId (uid : string) (m : MatchRow.t) : option string :=
  if bool_decide (MatchRow.user_a m = Some uid) then MatchRow.user_b m
  else MatchRow.user_a m.

(** The cells [handleLogout] clears once [signOut] is through; the
    seen-set, the draft and the slot map are not among them. *)
Definition handleLogout (st : PageState) : PageState :=
  mkPage None false None [] None [] (messageIdsRef st) (chatBody st)
    (nextSlotMap st) (loadingNextSlots st).

(** Everything that writes [messages] or the seen-set. *)
Inductive ChatEvent : Type :=
| chat_opened (matchId : Z) (reply : Reply (list MessageRow.t))
| chat_refreshed (reply : Reply (list MessageRow.t))
| chat_pushed (payload : Payload MessageRow.t)
| chat_sent (reply : Reply MessageRow.t)
| chat_signed_out.

Definition apply_chat_event (st : PageState) (ev : ChatEvent) : PageState :=
  match ev with
  | chat_opened matchId reply => fst (openChat matchId reply st)
  | chat_refreshed reply =>
      match activeMatchId st with
      | Some matchId => fst (fetchMessages matchId reply st)
      | None => st
      end
  | chat_pushed payload => chat_onInsert payload st
  | chat_sent reply => fst (handleSendMessage reply st)
  | chat_signed_out => handleLogout st
  end.

(** Every id shown is in the seen-set. *)
Definition ids_recorded (st : PageState) : Prop :=
  ∀ m k, m ∈ messages st → MessageRow.id m = Some k →
         String_of_number k ∈ messageIdsRef st.

(** No id occurs twice among the rows that have one. *)
Definition unique_ids (l : list MessageRow.t) : Prop :=
  NoDup (omap MessageRow.id l).

(** An event that is not the sender's own append, and whose fetched rows
    (if it is a fetch) carry no id twice. *)
Definition pushed_or_clean_load (ev : ChatEvent) : Prop :=
  match ev with
  | chat_opened _ reply | chat_refreshed reply =>
      ∀ rows, data reply = Some rows → unique_ids rows
  | chat_pushed _ | chat_signed_out => True
  | chat_sent _ => False
  end.

(** Along a run of chat events: every reply to an own send is for an id
    that is not in the seen-set when the reply arrives, and no fetch hands
    back an id twice. *)
Fixpoint replies_are_fresh (st : PageState) (events : list ChatEvent) : Prop :=
  match events with
  | [] => True
  | ev :: rest =>
      match ev with
      | chat_sent reply =>
          ∀ row k, error reply = None → data reply = Some row →
                   MessageRow.id row = Some k →
                   String_of_number k ∉ messageIdsRef st
      | chat_opened _ reply | chat_refreshed reply =>
          ∀ rows, data reply = Some rows → unique_ids rows
      | chat_pushed _ | chat_signed_out => True
      end
      ∧ replies_are_fresh (apply_chat_event st ev) rest
  end.

(** ** A candidate's details *)

Record DetailState : Type := mkDetail {
  detailOpen : bool;
  detailLoading : bool;
  detailProfile : option ProfileRow.t }.

(** [openProfileDetail(userId)]: the cached candidate if there is one,
    else one lookup whose [data] is shown. *)
Definition openProfileDetail (allUsers : list ProfileRow.t) (userId : string)
    (reply : Reply ProfileRow.t) (d : DetailState)
    : DetailState * list Action :=
  match list_find (λ u, ProfileRow.user_id u = userId) allUsers with
  | Some (_, cached) =>
      (mkDetail true (detailLoading d) (Some cached), [])
  | None => (mkDetail true false (data reply), [select_profile userId])
  end.

(** Everything that writes the list of the user's slots. *)
Inductive SlotEvent : Type :=
| slots_fetched (reply : Reply (list AvailabilitySlot.t))
| slot_added (reply : Reply AvailabilitySlot.t)
    (startText endText area venue : string) (recurring : bool)
| slot_deleted (slotId : option Z) (reply : Reply unit).

Definition apply_slot_event (localeCompare : string → string → Z)
    (getTime : string → option Z) (isoOf : Z → string) (now : Z)
    (st : PageState) (p : SlotsPanel) (ev : SlotEvent) : SlotsPanel :=
  match ev with
  | slots_fetched reply => fst (fetchSlots (or_empty (user st)) reply p)
  | slot_added reply startText endText area venue recurring =>
      (handleAddSlot localeCompare getTime isoOf now reply st
         (mkSlots (slots p) startText endText area venue recurring)).1.2
  | slot_deleted slotId reply => (handleDeleteSlot slotId reply st p).1.2
  end.

(** A fetch hands its rows back in the order it asked for. *)
Definition fetch_in_order (localeCompare : string → string → Z)
    (ev : SlotEvent) : Prop :=
  match ev with
  | slots_fetched reply =>
      ∀ rows, data reply = Some rows →
              sorted_by (by_slot_start_at localeCompare) rows
  | _ => True
  end.

(** Carol's profile as stored, and Bob signed in with the matches of the
    samples above. *)
Definition carol_profile : ProfileRow.t :=
  ProfileRow.mk (Some "13") None (Some "hello") (Some "2025-01-01T00:00:00+00:00")
    None (Some "right") (Some 3) (Some "carol") (Some "shake")
    (Some ["serve"; "match"]) "carol" (Some 5).

Definition page_bob : PageState :=
  mkPage (Some "bob") false None [m5] None [] ∅ "" ∅ false.

Definition carol_user : User.t := User.mk "carol" (Some "Carol") None.

(** A draft made of white space only: a sequence of white-space code
    points, of the ASCII range or beyond. *)
Fixpoint only_space (s : string) : bool :=
  match s with
  | EmptyString => true
  | String a s1 =>
      if Ascii.is_space a then only_space s1
      else
        match s1 with
        | String b s2 =>
            if is_space2 a b then only_space s2
            else
              match s2 with
              | String c s3 => is_space3 a b c && only_space s3
              | EmptyString => false
              end
        | EmptyString => false
        end
  end.

(** Drafts of one ideographic space (U+3000), and of a word between a
    no-break space (U+00A0) and a byte-order mark (U+FEFF). *)
Definition ideographic_space : string := "　".

Definition no_break_space : string :=
  String (Ascii.ascii_of_N 194) (String (Ascii.ascii_of_N 160) "").

Definition byte_order_mark : string :=
  String (Ascii.ascii_of_N 239)
    (String (Ascii.ascii_of_N 187) (String (Ascii.ascii_of_N 191) "")).

Definition padded_word : string :=
  no_break_space +:+ "ok" +:+ byte_order_mark.

(** A clock for the samples: times are written as milliseconds, and the
    ISO text of a time value is its numeral. *)
Definition isoOf_millis (t : Z) : string := String_of_number t.

Definition slot30 : AvailabilitySlot.t :=
  AvailabilitySlot.mk (Some "13") None "4000" (Some 30) (Some false) None None
    None "3000" (Some "alice") None.

Definition slot31 : AvailabilitySlot.t :=
  AvailabilitySlot.mk (Some "13") None "2500" (Some 31) (Some false) None None
    None "2000" (Some "alice") None.

Definition panel_alice : SlotsPanel :=
  mkSlots [slot30] "2000" "2500" "13" "" false.

(** Candidates: Bob has a next slot from 1500 to 3000, Carol has none. *)
Definition bob_profile : ProfileRow.t :=
  ProfileRow.mk (Some "13") None None None None None (Some 2) (Some "bobby")
    None None "bob" None.

Definition bob_next : PublicSlot.t :=
  PublicSlot.mk "bob" "1500" "3000" (Some "13") None.

Definition next_map : gmap string (option PublicSlot.t) :=
  <["bob" := Some bob_next]> (<["carol" := None]> ∅).

(** * Properties *)

(** ** Sorting *)

Section sorting_facts.
Context {A : Type} (compareFn : A → A → Z).

Lemma sort_insert_perm (x : A) (l : list A) :
  sort_insert compareFn x l ≡ₚ x :: l.
Proof.
  induction l as [|y l IH]; simpl; [done|].
  case_decide; [done|].
  rewrite IH. apply Permutation_swap.
Qed.

Lemma Array_sort_perm (l : list A) : Array_sort compareFn l ≡ₚ l.
Proof.
  induction l as [|x l IH]; simpl; [done|].
  rewrite sort_insert_perm. by rewrite IH.
Qed.

Lemma elem_of_Array_sort (x : A) (l : list A) :
  x ∈ Array_sort compareFn l ↔ x ∈ l.
Proof. by rewrite Array_sort_perm. Qed.

Lemma Forall_Array_sort (P : A → Prop) (l : list A) :
  Forall P (Array_sort compareFn l) ↔ Forall P l.
Proof. by rewrite Array_sort_perm. Qed.

Lemma sort_insert_sorted (x : A) (l : list A) :
  (∀ a b, compareFn a b ≤ 0 ∨ compareFn b a ≤ 0) →
  sorted_by compareFn l → sorted_by compareFn (sort_insert compareFn x l).
Proof.
  intros Htot. unfold sorted_by.
  induction l as [|y l IH]; intros Hs; simpl.
  - repeat constructor.
  - apply Sorted_inv in Hs as [Hs Hhd].
    case_decide as Hxy.
    + constructor; [by constructor|by constructor].
    + constructor; [by apply IH|].
      destruct l as [|z l]; simpl.
      * constructor. destruct (Htot x y); [lia|done].
      * case_decide.
        -- constructor. destruct (Htot x y); [lia|done].
        -- constructor. by apply HdRel_inv in Hhd.
Qed.

Lemma Array_sort_sorted (l : list A) :
  (∀ a b, compareFn a b ≤ 0 ∨ compareFn b a ≤ 0) →
  sorted_by compareFn (Array_sort compareFn l).
Proof.
  intros Htot. induction l as [|x l IH]; simpl.
  - constructor.
  - by apply sort_insert_sorted.
Qed.

(** Sorting a sorted list changes nothing. *)
Lemma Array_sort_id (l : list A) :
  sorted_by compareFn l → Array_sort compareFn l = l.
Proof.
  unfold sorted_by. induction l as [|x l IH]; intros Hs; simpl; [done|].
  apply Sorted_inv in Hs as [Hs Hhd]. rewrite IH by done.
  destruct Hhd as [|y l Hxy]; simpl; [done|].
  by rewrite decide_True.
Qed.

(** Removing elements from a sorted list leaves it sorted. *)
Lemma sorted_by_filter (P : A → Prop) `{∀ x, Decision (P x)} (l : list A) :
  (∀ a b c, compareFn a b ≤ 0 → compareFn b c ≤ 0 → compareFn a c ≤ 0) →
  sorted_by compareFn l → sorted_by compareFn (filter P l).
Proof.
  intros Htr Hs. unfold sorted_by in *.
  apply StronglySorted_Sorted.
  apply Sorted_StronglySorted in Hs; [|by intros a b c; apply Htr].
  induction Hs as [|x l Hs IH Hall]; [constructor|].
  rewrite filter_cons. case_decide; [|done].
  constructor; [done|].
  apply Forall_forall. intros y [_ Hy]%list_elem_of_filter.
  by eapply Forall_forall in Hall.
Qed.

End sorting_facts.

(** ** Failed fetches *)

(** C6: when the initial fetch fails, the page's state (in particular the
    visible sequence and the seen-set) is exactly what it was, and the only
    request issued is the one select: nothing is retried. This holds for the
    messages fetch, for the matches fetch, and for [openChat], which only
    selects the match and clears the draft before fetching. *)
Theorem C6_failed_fetch_changes_nothing
    (e : string) (st : PageState) (matchId : Z) (uid : string)
    (partialMessages : option (list MessageRow.t))
    (partialMatches : option (list MatchRow.t)) :
  fetchMessages matchId (mkReply partialMessages (Some e)) st
    = (st, [fetchMessages_request matchId])
  ∧ fetchMatches uid (mkReply partialMatches (Some e)) st
    = (st, [fetchMatches_request uid])
  ∧ (let out := openChat matchId (mkReply partialMessages (Some e)) st in
     messages (fst out) = messages st
     ∧ messageIdsRef (fst out) = messageIdsRef st
     ∧ snd out = [fetchMessages_request matchId]).
Proof. done. Qed.

(** ** Overlap *)

Lemma number_lt_spec (x y : option Z) : number_lt x y = true ↔ time_lt x y.
Proof.
  unfold number_lt, time_lt. split.
  - destruct x as [tx|], y as [ty|]; try done.
    intros H%bool_decide_eq_true. eauto.
  - intros (tx & ty & -> & -> & Hlt). by apply bool_decide_eq_true.
Qed.

(** Two non-empty half-open ranges share an instant exactly when each starts
    before the other ends. *)
Lemma ranges_meet (a1 a2 b1 b2 : Z) :
  a1 < a2 → b1 < b2 →
  (a1 < b2 ∧ b1 < a2) ↔ ∃ t, in_range a1 a2 t ∧ in_range b1 b2 t.
Proof.
  unfold in_range. intros Ha Hb. split.
  - intros [H1 H2]. exists (Z.max a1 b1). lia.
  - intros (t & ? & ?). lia.
Qed.

(** C10: [hasOverlap] answers true exactly when the first range starts
    before the second ends and the second starts before the first ends (on
    the parsed time values; an unparsable date makes it false); swapping the
    two ranges never changes the answer; and for two non-empty ranges the
    answer is true exactly when the half-open ranges share an instant. *)
Theorem C10_hasOverlap_meets_and_commutes
    (getTime : string → option Z) (aStart aEnd bStart bEnd : string) :
  (hasOverlap getTime aStart aEnd bStart bEnd = true
     ↔ time_lt (getTime aStart) (getTime bEnd)
       ∧ time_lt (getTime bStart) (getTime aEnd))
  ∧ hasOverlap getTime aStart aEnd bStart bEnd
    = hasOverlap getTime bStart bEnd aStart aEnd
  ∧ (∀ a1 a2 b1 b2 : Z,
       getTime aStart = Some a1 → getTime aEnd = Some a2 →
       getTime bStart = Some b1 → getTime bEnd = Some b2 →
       a1 < a2 → b1 < b2 →
       (hasOverlap getTime aStart aEnd bStart bEnd = true
          ↔ ∃ t, in_range a1 a2 t ∧ in_range b1 b2 t)).
Proof.
  split; [|split].
  - unfold hasOverlap. rewrite andb_true_iff.
    by rewrite !number_lt_spec.
  - unfold hasOverlap. apply andb_comm.
  - intros a1 a2 b1 b2 E1 E2 E3 E4 Ha Hb.
    rewrite <- (ranges_meet a1 a2 b1 b2) by done.
    unfold hasOverlap. rewrite E1, E2, E3, E4. simpl.
    rewrite andb_true_iff, !bool_decide_eq_true. done.
Qed.

Lemma C10_hasOverlap_witness :
  hasOverlap millis "1000" "2000" "1500" "3000" = true
  ∧ hasOverlap millis "1500" "3000" "1000" "2000" = true
  ∧ ∃ t, in_range 1000 2000 t ∧ in_range 1500 3000 t.
Proof.
  destruct (C10_hasOverlap_meets_and_commutes millis "1000" "2000" "1500" "3000")
    as (_ & Hcomm & Hmeet).
  split; [reflexivity|]. split; [by rewrite <- Hcomm|].
  apply (Hmeet 1000 2000 1500 3000); try reflexivity; lia.
Defined.

(** ** The chat channel and the sender's own append *)

Lemma pretty_N_go_nonempty (m : N) (s : string) :
  s ≠ "" → pretty_N_go m s ≠ "".
Proof.
  revert s. induction (N.lt_wf_0 m) as [m _ IH]. intros s Hs.
  destruct (decide (m = 0)%N) as [->|Hm]; [by rewrite pretty_N_go_0|].
  rewrite pretty_N_go_step by lia. apply IH; [|done].
  apply N.div_lt; lia.
Qed.

(** A numeral is never the empty string, so a present id is truthy. *)
Lemma String_of_number_nonempty (n : Z) : String_of_number n ≠ "".
Proof.
  unfold String_of_number, pretty, pretty_Z.
  destruct n as [|p|p]; [done| |done].
  unfold pretty, pretty_positive, pretty, pretty_N.
  rewrite decide_False by done.
  rewrite pretty_N_go_step by lia. by apply pretty_N_go_nonempty.
Qed.

Lemma message_key_truthy (row : MessageRow.t) :
  truthy (message_key row) = bool_decide (is_Some (MessageRow.id row)).
Proof.
  unfold message_key. destruct (MessageRow.id row) as [n|]; simpl.
  - rewrite !bool_decide_eq_true_2; eauto using String_of_number_nonempty.
  - done.
Qed.

(** What the chat callback does, by the three cases of its test. *)
Lemma chat_onInsert_no_row (e : EventType) (rowOld : option MessageRow.t)
    (st : PageState) :
  chat_onInsert (mkPayload e None rowOld) st = st.
Proof. done. Qed.

Lemma chat_onInsert_no_id (payload : Payload MessageRow.t)
    (row : MessageRow.t) (st : PageState) :
  new payload = Some row → MessageRow.id row = None →
  chat_onInsert payload st = setMessages (λ prev, prev ++ [row]) st.
Proof.
  intros Hnew Hid. unfold chat_onInsert, message_key. by rewrite Hnew, Hid.
Qed.

Lemma chat_onInsert_seen (payload : Payload MessageRow.t)
    (row : MessageRow.t) (k : Z) (st : PageState) :
  new payload = Some row → MessageRow.id row = Some k →
  String_of_number k ∈ messageIdsRef st →
  chat_onInsert payload st = st.
Proof.
  intros Hnew Hid Hseen. unfold chat_onInsert. rewrite Hnew.
  rewrite message_key_truthy. unfold message_key. rewrite Hid. simpl.
  by rewrite bool_decide_eq_true_2.
Qed.

Lemma chat_onInsert_unseen (payload : Payload MessageRow.t)
    (row : MessageRow.t) (k : Z) (st : PageState) :
  new payload = Some row → MessageRow.id row = Some k →
  String_of_number k ∉ messageIdsRef st →
  chat_onInsert payload st
  = setMessages (λ prev, prev ++ [row]) (addMessageId (String_of_number k) st).
Proof.
  intros Hnew Hid Hseen. unfold chat_onInsert. rewrite Hnew.
  rewrite message_key_truthy. unfold message_key. rewrite Hid. simpl.
  by rewrite bool_decide_eq_false_2.
Qed.

(** The sender's own append, when the guards pass and the insert returned
    the row: the id is recorded and the row is appended, whatever the
    seen-set held. *)
Lemma handleSendMessage_appends (row : MessageRow.t) (k : Z) (matchId : Z)
    (st : PageState) :
  activeMatchId st = Some matchId → truthy (user st) = true →
  trim (chatBody st) ≠ "" → MessageRow.id row = Some k →
  let st' := fst (handleSendMessage (mkReply (Some row) None) st) in
  messages st' = messages st ++ [row]
  ∧ messageIdsRef st' = {[ String_of_number k ]} ∪ messageIdsRef st.
Proof.
  intros Ha Hu Hb Hid. unfold handleSendMessage.
  destruct (user st) as [userId|]; [|done].
  rewrite Ha, Hu. simpl. rewrite bool_decide_eq_false_2 by done.
  simpl. unfold message_key. rewrite Hid. done.
Qed.

Lemma count_id_app (k : Z) (l1 l2 : list MessageRow.t) :
  count_id k (l1 ++ l2) = (count_id k l1 + count_id k l2)%nat.
Proof. unfold count_id. by rewrite filter_app, length_app. Qed.

Lemma count_id_single (k : Z) (row : MessageRow.t) :
  MessageRow.id row = Some k → count_id k [row] = 1%nat.
Proof.
  intros Hid. unfold count_id. rewrite filter_cons, decide_True by done. done.
Qed.

(** Reply first, notification second: the notification finds the id in the
    seen-set and is ignored, so the row is shown once more than before. *)
Lemma reply_then_notification_once (row : MessageRow.t) (k matchId : Z)
    (payload : Payload MessageRow.t) (st : PageState) :
  activeMatchId st = Some matchId → truthy (user st) = true →
  trim (chatBody st) ≠ "" → MessageRow.id row = Some k →
  new payload = Some row →
  let st1 := fst (handleSendMessage (mkReply (Some row) None) st) in
  let st2 := chat_onInsert payload st1 in
  count_id k (messages st2) = S (count_id k (messages st)).
Proof.
  intros Ha Hu Hb Hid Hnew.
  destruct (handleSendMessage_appends row k matchId st) as [Hm Hs]; try done.
  simpl. rewrite (chat_onInsert_seen payload row k); [|done..|].
  2: { rewrite Hs. apply elem_of_union_l. by apply elem_of_singleton. }
  rewrite Hm, count_id_app, (count_id_single k row) by done. lia.
Qed.

(** Notification first, reply second: the notification appends the row and
    records its id, and the reply then appends the row again without
    looking at the seen-set. *)
Lemma notification_then_reply_twice (row : MessageRow.t) (k matchId : Z)
    (payload : Payload MessageRow.t) (st : PageState) :
  activeMatchId st = Some matchId → truthy (user st) = true →
  trim (chatBody st) ≠ "" → MessageRow.id row = Some k →
  new payload = Some row → String_of_number k ∉ messageIdsRef st →
  let st1 := chat_onInsert payload st in
  let st2 := fst (handleSendMessage (mkReply (Some row) None) st1) in
  count_id k (messages st2) = S (S (count_id k (messages st))).
Proof.
  intros Ha Hu Hb Hid Hnew Hseen. simpl.
  rewrite (chat_onInsert_unseen payload row k) by done.
  destruct (handleSendMessage_appends row k matchId
    (setMessages (λ prev, prev ++ [row])
       (addMessageId (String_of_number k) st))) as [Hm _]; try done.
  rewrite Hm. simpl.
  rewrite !count_id_app, (count_id_single k row) by done. lia.
Qed.

(** C1: at the failing input. Alice sends message 7 into an empty chat and
    the notification of row 7 is processed before the insert's reply: the
    visible sequence then holds row 7 twice. In the other order it holds it
    once. *)
Theorem C1_notification_before_reply_shows_row_twice :
  (let st1 := chat_onInsert (mkPayload INSERT (Some msg7) None) page0 in
   let st2 := fst (handleSendMessage (mkReply (Some msg7) None) st1) in
   messages st2 = [msg7; msg7] ∧ count_id 7 (messages st2) = 2%nat)
  ∧ (let st1 := fst (handleSendMessage (mkReply (Some msg7) None) page0) in
     let st2 := chat_onInsert (mkPayload INSERT (Some msg7) None) st1 in
     messages st2 = [msg7] ∧ count_id 7 (messages st2) = 1%nat).
Proof. vm_compute. done. Qed.

(** C3, as stated, fails: a pushed row without an id is shown. *)
Lemma C3_row_without_id_is_shown :
  messages (chat_onInsert (mkPayload INSERT (Some msg_no_id) None) page0)
  ≠ messages page0.
Proof. vm_compute. discriminate. Qed.

(** C3, amended: a notification that carries no row changes nothing; a
    notification whose row has no id leaves the seen-set (and every other
    cell) as it was and appends the row to the visible sequence. *)
Theorem C3_no_row_dropped_no_id_appended
    (e : EventType) (rowOld : option MessageRow.t) (st : PageState)
    (body : string) (match_id : option Z) (sender_id sent_at : option string) :
  chat_onInsert (mkPayload e None rowOld) st = st
  ∧ (let row := MessageRow.mk body None match_id sender_id sent_at in
     let st' := chat_onInsert (mkPayload e (Some row) rowOld) st in
     st' = setMessages (λ prev, prev ++ [row]) st
     ∧ messages st' = messages st ++ [row]
     ∧ messageIdsRef st' = messageIdsRef st).
Proof. done. Qed.

(** ** The code-unit collation is consistent *)

Lemma codeUnitCompare_le (a b : string) :
  codeUnitCompare a b ≤ 0 ↔ (a ≤ b)%string.
Proof.
  unfold codeUnitCompare, String.le, String.leb.
  destruct (String.compare a b); simpl; split; (done || lia).
Qed.

Lemma codeUnitCompare_total (a b : string) :
  codeUnitCompare a b ≤ 0 ∨ codeUnitCompare b a ≤ 0.
Proof. rewrite !codeUnitCompare_le. apply (total String.le). Qed.

Lemma codeUnitCompare_trans (a b c : string) :
  codeUnitCompare a b ≤ 0 → codeUnitCompare b c ≤ 0 →
  codeUnitCompare a c ≤ 0.
Proof. rewrite !codeUnitCompare_le. apply (transitivity (R:=String.le)). Qed.

(** ** The initial fetch of messages *)

Lemma elem_of_message_ids (rows : list MessageRow.t) (k : Z) :
  String_of_number k ∈@{gset string} list_to_set (omap message_key rows)
  ↔ ∃ m, m ∈ rows ∧ MessageRow.id m = Some k.
Proof.
  rewrite elem_of_list_to_set, list_elem_of_omap. unfold message_key.
  split; intros (m & Hm & Hk); exists m; split; try done.
  - destruct (MessageRow.id m) as [n|]; simplify_eq/=.
    unfold String_of_number in *. by simplify_eq.
  - by rewrite Hk.
Qed.

Ltac show_sorted :=
  unfold sorted_by; repeat constructor; vm_compute; discriminate.




(** ** Order of the two lists *)

Lemma by_start_at_total (localeCompare : string → string → Z) :
  (∀ a b, localeCompare a b ≤ 0 ∨ localeCompare b a ≤ 0) →
  ∀ a b, by_start_at localeCompare a b ≤ 0 ∨ by_start_at localeCompare b a ≤ 0.
Proof. intros Htot a b. apply Htot. Qed.

Lemma by_start_at_trans (localeCompare : string → string → Z) :
  (∀ a b c, localeCompare a b ≤ 0 → localeCompare b c ≤ 0 →
            localeCompare a c ≤ 0) →
  ∀ a b c, by_start_at localeCompare a b ≤ 0 →
           by_start_at localeCompare b c ≤ 0 →
           by_start_at localeCompare a c ≤ 0.
Proof. intros Htr a b c. apply Htr. Qed.

(** Whatever the event, the updater of the matches channel returns a sorted
    list. *)
Lemma matches_updater_sorted (localeCompare : string → string → Z)
    (payload : Payload MatchRow.t) (prev : list MatchRow.t) :
  (∀ a b, localeCompare a b ≤ 0 ∨ localeCompare b a ≤ 0) →
  sorted_by (by_start_at localeCompare)
    (matches_updater localeCompare payload prev).
Proof.
  intros Htot. unfold matches_updater.
  by apply Array_sort_sorted, by_start_at_total.
Qed.

(** The callback either leaves the state alone or applies the updater. *)
Lemma matches_onChange_cases (localeCompare : string → string → Z)
    (uid : string) (payload : Payload MatchRow.t) (st : PageState) :
  matches_onChange localeCompare uid payload st = st
  ∨ matches_onChange localeCompare uid payload st
    = setMatches (matches_updater localeCompare payload) st.
Proof.
  unfold matches_onChange.
  destruct (pushed_row payload) as [row|]; [|by left].
  destruct (involvesMe uid row); [by right|by left].
Qed.

(** What the chat callback and the sender's append do to the visible
    sequence: nothing, or one row at the end. *)
Lemma chat_onInsert_messages (payload : Payload MessageRow.t)
    (st : PageState) :
  messages (chat_onInsert payload st) = messages st
  ∨ ∃ row, new payload = Some row
           ∧ messages (chat_onInsert payload st) = messages st ++ [row].
Proof.
  unfold chat_onInsert. destruct (new payload) as [row|]; [|by left].
  simpl. destruct (negb _ || negb _); [|by left].
  right. exists row. split; [done|].
  destruct (message_key row) as [k|]; [|done].
  by destruct (truthy (Some k)).
Qed.

Lemma handleSendMessage_messages (reply : Reply MessageRow.t)
    (st : PageState) :
  messages (fst (handleSendMessage reply st)) = messages st
  ∨ ∃ row, data reply = Some row
           ∧ messages (fst (handleSendMessage reply st)) = messages st ++ [row].
Proof.
  unfold handleSendMessage.
  destruct (user st) as [userId|]; [|by left].
  destruct (activeMatchId st) as [matchId|]; [|by left].
  destruct (negb (truthy (Some userId))); [by left|].
  case_bool_decide; [by left|].
  destruct (error reply) as [e|]; [by left|].
  destruct (data reply) as [row|]; [|by left].
  right. exists row. split; [done|].
  by destruct (message_key row).
Qed.

(** C2, as stated, fails for messages. Bob's message 8 (sent 10:00:05) is
    pushed into Alice's empty chat before the reply to her own message 7
    (sent 10:00:03) arrives: the visible sequence is then 8, 7. *)
Lemma C2_late_reply_breaks_message_order :
  let st1 := chat_onInsert (mkPayload INSERT (Some msg8) None) page0 in
  let st2 := fst (handleSendMessage (mkReply (Some msg7) None) st1) in
  ¬ sorted_by (by_sent_at codeUnitCompare) (messages st2).
Proof.
  simpl. unfold sorted_by. intros Hs.
  apply Sorted_inv in Hs as [_ Hhd]. apply HdRel_inv in Hhd.
  vm_compute in Hhd. by apply Hhd.
Qed.

(** C2, amended: for a total collation, every list the matches channel
    writes (insert, update or delete of a row involving the user) is sorted
    ascending by [start_at], an event it discards leaves a sorted list
    sorted, and the list written after a proposal is sorted. Both initial
    fetches store the rows in the order they came back. Messages are never
    re-sorted: the sender's append and the chat channel each put a row at
    the end of the sequence or leave the sequence alone. *)
Theorem C2_matches_sorted_messages_in_arrival_order
    (localeCompare : string → string → Z) :
  (∀ a b, localeCompare a b ≤ 0 ∨ localeCompare b a ≤ 0) →
  (∀ payload prev,
     sorted_by (by_start_at localeCompare)
       (matches_updater localeCompare payload prev))
  ∧ (∀ uid payload st,
       sorted_by (by_start_at localeCompare) (matches st) →
       sorted_by (by_start_at localeCompare)
         (matches (matches_onChange localeCompare uid payload st)))
  ∧ (∀ data st,
       sorted_by (by_start_at localeCompare)
         (matches (handleProposeMatch_inserted localeCompare data st)))
  ∧ (∀ uid rows st,
       matches (fst (fetchMatches uid (mkReply (Some rows) None) st)) = rows)
  ∧ (∀ matchId rows st,
       messages (fst (fetchMessages matchId (mkReply (Some rows) None) st))
       = rows)
  ∧ (∀ payload st,
       messages (chat_onInsert payload st) = messages st
       ∨ ∃ row, new payload = Some row
                ∧ messages (chat_onInsert payload st) = messages st ++ [row])
  ∧ (∀ reply st,
       messages (fst (handleSendMessage reply st)) = messages st
       ∨ ∃ row, data reply = Some row
                ∧ messages (fst (handleSendMessage reply st))
                  = messages st ++ [row]).
Proof.
  intros Htot. repeat split.
  - intros. by apply matches_updater_sorted.
  - intros uid payload st Hs.
    destruct (matches_onChange_cases localeCompare uid payload st) as [->| ->];
      [done|]. by apply matches_updater_sorted.
  - intros data st. simpl. by apply Array_sort_sorted, by_start_at_total.
  - apply chat_onInsert_messages.
  - apply handleSendMessage_messages.
Qed.

Lemma C2_matches_sorted_witness :
  sorted_by (by_start_at codeUnitCompare)
    (matches (matches_onChange codeUnitCompare "alice"
                (mkPayload INSERT (Some m6) None) page_m5))
  ∧ matches (matches_onChange codeUnitCompare "alice"
               (mkPayload INSERT (Some m6) None) page_m5) = [m6; m5].
Proof.
  destruct (C2_matches_sorted_messages_in_arrival_order codeUnitCompare
              codeUnitCompare_total) as (_ & Hchange & _).
  split; [|vm_compute; reflexivity].
  apply Hchange. show_sorted.
Defined.

(** ** Delete notifications on the matches channel *)

(** A delete notification whose [new] is null is judged by its [old] row:
    when that row carries the key only it names nobody, the notification is
    discarded, and match 5 stays in the list. *)
Lemma delete_with_the_key_only_removes_nothing :
  matches (matches_onChange codeUnitCompare "alice" delete5_key_only page_m5)
  ≠ filter (λ m, MatchRow.id m ≠ Some 5) (matches page_m5).
Proof. vm_compute. discriminate. Qed.

(** With [new] null and an [old] row that names the signed-in user as
    [user_a] or [user_b], the [DELETE] case does what it is written for: it
    removes the entities with that row's id and re-sorts; when the prior
    list is sorted (and the collation transitive), the result is the prior
    list with exactly those entities removed, every other row unchanged and
    in its prior relative order. *)
Lemma delete_with_null_new_removes_the_matching_id
    (localeCompare : string → string → Z) (uid : string)
    (row : MatchRow.t) (st : PageState) :
  (∀ a b c, localeCompare a b ≤ 0 → localeCompare b c ≤ 0 →
            localeCompare a c ≤ 0) →
  let st' := matches_onChange localeCompare uid
               (mkPayload DELETE None (Some row)) st in
  let others := filter (λ m, MatchRow.id m ≠ MatchRow.id row) (matches st) in
  (involvesMe uid row = false → st' = st)
  ∧ (involvesMe uid row = true →
       matches st' = Array_sort (by_start_at localeCompare) others
       ∧ (sorted_by (by_start_at localeCompare) (matches st) →
          matches st' = others)).
Proof.
  intros Htr. simpl. unfold matches_onChange. simpl. split.
  - by intros ->.
  - intros ->. split; [done|]. intros Hs. simpl.
    unfold matches_updater. simpl. apply Array_sort_id.
    apply sorted_by_filter; [|done]. by apply by_start_at_trans.
Qed.

(** The re-sort is visible when the prior list is not sorted: after a fetch
    that returned the unscheduled match last, deleting match 6 also moves
    the unscheduled match in front of match 5. *)
Example delete_resorts_an_unsorted_list :
  let st := fst (fetchMatches "alice"
                   (mkReply (Some [m6; m5; m4_unscheduled]) None) page0) in
  matches st = [m6; m5; m4_unscheduled]
  ∧ matches (matches_onChange codeUnitCompare "alice"
               (mkPayload DELETE None (Some m6)) st) = [m4_unscheduled; m5].
Proof. vm_compute. done. Qed.

(** The guard reads the participants from [new] whenever [new] is not
    null, also for a delete: a notification whose [new] names the user as
    neither participant is discarded, whatever its type and its [old]. *)
Lemma pushed_row_prefers_new (localeCompare : string → string → Z)
    (uid : string) (type : EventType) (rowNew : MatchRow.t)
    (rowOld : option MatchRow.t) (st : PageState) :
  involvesMe uid rowNew = false →
  matches_onChange localeCompare uid (mkPayload type (Some rowNew) rowOld) st
  = st.
Proof. intros Hme. unfold matches_onChange. simpl. by rewrite Hme. Qed.

(** C7 does not hold of the code: a delete notification is handed over
    with the empty object as [new] and the deleted row as [old]. The guard
    takes its row from [new], reads both participants as undefined and
    returns before the [DELETE] case is reached. With matches 6 and 5 in
    Alice's list and match 5 deleted, the list afterwards still holds
    match 5, whether [old] is the whole row or its key only; the claim asks
    for the list without it. *)
Theorem C7_pushed_delete_leaves_the_match_listed :
  matches page_m6_m5 = [m6; m5]
  ∧ pushed_row delete5 = Some no_columns
  ∧ involvesMe "alice" no_columns = false
  ∧ matches_onChange codeUnitCompare "alice" delete5 page_m6_m5 = page_m6_m5
  ∧ matches_onChange codeUnitCompare "alice" delete5_key page_m6_m5
    = page_m6_m5
  ∧ m5 ∈ matches (matches_onChange codeUnitCompare "alice" delete5 page_m6_m5)
  ∧ filter (λ m, MatchRow.id m ≠ Some 5) (matches page_m6_m5) = [m6].
Proof.
  split; [done|]. split; [done|]. split; [done|].
  split; [by apply pushed_row_prefers_new|].
  split; [by apply pushed_row_prefers_new|].
  split; [|vm_compute; reflexivity].
  unfold delete5. rewrite pushed_row_prefers_new by done.
  apply list_elem_of_further, list_elem_of_here.
Qed.

(** ** Whose matches the list holds *)

(** The request [fetchMatches] sends asks for exactly the rows that name
    the user. *)
Lemma requested_by_fetchMatches (localeCompare : string → string → Z)
    (uid : string) (reply : Reply (list MatchRow.t)) (st : PageState)
    (request : Effect) (m : MatchRow.t) :
  request ∈ snd (fetchMatches uid reply st) →
  requested_by localeCompare request m = involvesMe uid m.
Proof.
  simpl. intros ->%list_elem_of_singleton. simpl.
  by rewrite andb_true_r.
Qed.

Lemma replace_by_id_Forall (P : MatchRow.t → Prop) (k : option Z)
    (row : MatchRow.t) (prev : list MatchRow.t) :
  P row → Forall P prev → Forall P (replace_by_id k row prev).
Proof.
  intros Hrow Hprev. unfold replace_by_id. apply Forall_fmap.
  eapply Forall_impl; [exact Hprev|]. intros m Hm. simpl.
  by destruct (strict_eq _ _).
Qed.

(** An applied notification keeps a list of the user's matches a list of
    the user's matches. *)
Lemma matches_onChange_involvesMe (localeCompare : string → string → Z)
    (uid : string) (payload : Payload MatchRow.t) (st : PageState) :
  Forall (λ m, involvesMe uid m = true) (matches st) →
  Forall (λ m, involvesMe uid m = true)
    (matches (matches_onChange localeCompare uid payload st)).
Proof.
  intros Hprev. unfold matches_onChange, pushed_row.
  destruct (new payload) as [rowNew|] eqn:Hnew.
  - destruct (involvesMe uid rowNew) eqn:Hme; [|done].
    simpl. unfold matches_updater. rewrite Forall_Array_sort, Hnew.
    destruct (eventType payload).
    + destruct (existsb _ _); [done|].
      apply Forall_app. split; [done|]. by constructor.
    + by apply replace_by_id_Forall.
    + destruct (old payload); [|done].
      apply Forall_forall. intros m [_ Hm]%list_elem_of_filter.
      by eapply Forall_forall in Hprev.
  - destruct (old payload) as [rowOld|] eqn:Hold; [|done].
    destruct (involvesMe uid rowOld); [|done].
    simpl. unfold matches_updater. rewrite Forall_Array_sort, Hnew, Hold.
    destruct (eventType payload); [done..|].
    apply Forall_forall. intros m [_ Hm]%list_elem_of_filter.
    by eapply Forall_forall in Hprev.
Qed.

Lemma apply_event_involvesMe (localeCompare : string → string → Z)
    (uid : string) (ev : MatchesEvent) (st : PageState) :
  honours_request localeCompare uid st ev →
  Forall (λ m, involvesMe uid m = true) (matches st) →
  Forall (λ m, involvesMe uid m = true)
    (matches (apply_event localeCompare uid st ev)).
Proof.
  intros Hev Hprev. destruct ev as [reply|data|matchId status reply|payload].
  - cbn [apply_event honours_request] in *.
    unfold fetchMatches at 1. cbn [fst].
    destruct (error reply); [done|].
    destruct (data reply) as [rows|] eqn:Hdata; [|done]. simpl.
    eapply Forall_impl; [by apply Hev|]. intros m Hm. simpl in Hm.
    rewrite <- (requested_by_fetchMatches localeCompare uid reply st
                  (fetchMatches_request uid) m) by apply list_elem_of_here.
    apply Hm, list_elem_of_here.
  - simpl in *. rewrite Forall_Array_sort. apply Forall_app. split; [done|].
    constructor; [|done]. unfold involvesMe. rewrite Hev.
    by rewrite bool_decide_eq_true_2.
  - simpl in *. unfold handleMatchStatus.
    destruct (user st); [|done]. destruct matchId as [k|]; [|done].
    destruct (error reply); [done|].
    destruct (data reply) as [row|]; [|done]. simpl.
    apply replace_by_id_Forall; [|done]. by apply Hev.
  - by apply matches_onChange_involvesMe.
Qed.

(** C8: the one request the initial fetch sends is the select on [matches]
    whose filter is "[user_a] is the user or [user_b] is the user", and the
    rows that request asks for are exactly the rows that name the user as
    [user_a] or [user_b]; the matches channel leaves the state untouched
    when the pushed row names the user as neither (or when there is no
    row); and, over every sequence of fetches, proposals, answers and
    pushed events in which the backend answers the requests the page sent,
    a list that holds only the user's matches keeps holding only the user's
    matches. *)
Theorem C8_matches_list_holds_only_the_users_matches
    (localeCompare : string → string → Z) (uid : string) :
  (∀ reply st,
     snd (fetchMatches uid reply st)
     = [select_from "matches"
          [or_ (eq_ "user_a" uid) (eq_ "user_b" uid)] "start_at"])
  ∧ (∀ reply st request m,
       request ∈ snd (fetchMatches uid reply st) →
       requested_by localeCompare request m = involvesMe uid m)
  ∧ (∀ payload st,
       (∀ row, pushed_row payload = Some row → involvesMe uid row = false) →
       matches_onChange localeCompare uid payload st = st)
  ∧ (∀ events st,
       backend_honours localeCompare uid st events →
       Forall (λ m, involvesMe uid m = true) (matches st) →
       Forall (λ m, involvesMe uid m = true)
         (matches (foldl (apply_event localeCompare uid) st events))).
Proof.
  split; [done|]. split; [apply requested_by_fetchMatches|]. split.
  - intros payload st Hrow. unfold matches_onChange.
    destruct (pushed_row payload) as [row|]; [|done].
    by rewrite (Hrow row).
  - intros events. induction events as [|ev events IH]; intros st Hevs Hst.
    + done.
    + destruct Hevs as [Hev Hevs]. cbn [foldl].
      apply IH; [done|]. by apply apply_event_involvesMe.
Qed.

Lemma C8_matches_list_witness :
  let events :=
    [ fetched (mkReply (Some [m5]) None);
      pushed (mkPayload INSERT (Some m6) None);
      pushed (mkPayload INSERT (Some m9) None) ] in
  snd (fetchMatches "alice" (mkReply (Some [m5]) None) page0)
  = [select_from "matches"
       [or_ (eq_ "user_a" "alice") (eq_ "user_b" "alice")] "start_at"]
  ∧ matches (foldl (apply_event codeUnitCompare "alice") page0 events)
    = [m6; m5]
  ∧ Forall (λ m, involvesMe "alice" m = true)
      (matches (foldl (apply_event codeUnitCompare "alice") page0 events)).
Proof.
  destruct (C8_matches_list_holds_only_the_users_matches codeUnitCompare "alice")
    as (Hreq & _ & _ & Hinv).
  split; [apply Hreq|]. split; [vm_compute; reflexivity|].
  apply Hinv; [|constructor].
  cbn [backend_honours]. split; [|done].
  intros rows [= <-]. constructor; [|constructor].
  intros request ->%list_elem_of_singleton. reflexivity.
Defined.

(** ** Answering a proposal *)

(** [handleMatchStatus] issues at most the one update it was asked for. *)
Lemma handleMatchStatus_effects (matchId : option Z) (status : string)
    (reply : Reply MatchRow.t) (st : PageState) (eff : Effect) :
  eff ∈ snd (handleMatchStatus matchId status reply st) →
  ∃ k, matchId = Some k ∧ eff = update_match_status k status.
Proof.
  unfold handleMatchStatus.
  destruct (user st); [|by intros ?%elem_of_nil].
  destruct matchId as [k|]; [|by intros ?%elem_of_nil].
  simpl. intros ->%list_elem_of_singleton. eauto.
Qed.

(** In the page with [respondMatch], a status update goes out only for a
    match that is pending and whose [user_b] is the signed-in user, and it
    asks for [confirmed] or [cancelled]. *)
Lemma respondMatch_update_only_by_receiver (m : MatchRow.t) (next : Answer)
    (reply : Reply MatchRow.t) (st : PageState) (k : Z) (s : string) :
  update_match_status k s ∈ snd (respondMatch m next reply st) →
  (∃ me, user st = Some me ∧ me ≠ "" ∧ MatchRow.user_b m = Some me)
  ∧ MatchRow.status m = Some "pending"
  ∧ MatchRow.id m = Some k
  ∧ (s = "confirmed" ∨ s = "cancelled").
Proof.
  unfold respondMatch. destruct (canRespond st m) eqn:Hcan.
  - intros (k' & Hid & [= -> ->])%handleMatchStatus_effects.
    unfold canRespond, isReceiver in Hcan.
    apply andb_true_iff in Hcan as [[Hme Hb]%andb_true_iff Hp].
    apply bool_decide_eq_true in Hb, Hp.
    destruct (user st) as [me|]; [|done]. simpl in Hme.
    apply bool_decide_eq_true in Hme.
    split; [by exists me|]. split; [done|]. split; [done|].
    destruct next; [by left|by right].
  - simpl. by intros [=]%list_elem_of_singleton.
Qed.

Lemma respond_click_update_only_by_receiver (m : MatchRow.t) (next : Answer)
    (reply : Reply MatchRow.t) (st : PageState) (k : Z) (s : string) :
  update_match_status k s ∈ snd (respond_click m next reply st) →
  (∃ me, user st = Some me ∧ me ≠ "" ∧ MatchRow.user_b m = Some me)
  ∧ MatchRow.status m = Some "pending"
  ∧ MatchRow.id m = Some k
  ∧ (s = "confirmed" ∨ s = "cancelled").
Proof.
  unfold respond_click. destruct (_ && _ && _).
  - apply respondMatch_update_only_by_receiver.
  - by intros ?%elem_of_nil.
Qed.

(** C5: at the failing input. Alice proposed match 5 to Bob and it is
    pending. In the earlier page the answer buttons are shown to her as
    well, and her click on 承諾 sends the update to [confirmed] although she
    is not the receiver; the page with [respondMatch] sends nothing for the
    same click, and [respondMatch] itself only raises the error toast. *)
Theorem C5_earlier_page_lets_the_proposer_answer :
  isReceiver page_m5 m5 = false
  ∧ snd (EarlierPage.respond_click m5 confirmed
           (mkReply (Some m5_confirmed) None) page_m5)
    = [update_match_status 5 "confirmed"]
  ∧ matches (fst (EarlierPage.respond_click m5 confirmed
                    (mkReply (Some m5_confirmed) None) page_m5))
    = [m5_confirmed]
  ∧ snd (respond_click m5 confirmed (mkReply (Some m5_confirmed) None) page_m5)
    = []
  ∧ snd (respondMatch m5 confirmed (mkReply (Some m5_confirmed) None) page_m5)
    = [toast_error "承諾・辞退できるのは提案の受信者（pendingのみ）です"].
Proof. vm_compute. done. Qed.

(** ** Next free slot per user *)

Lemma initial_map_lookup (userIds : list string) (uid : string) :
  uid ∈ userIds →
  (list_to_map ((λ id, (id, None)) <$> userIds)
     : gmap string (option PublicSlot.t)) !! uid = Some None.
Proof.
  induction userIds as [|id userIds IH]; [by intros ?%elem_of_nil|].
  intros Hin. simpl. destruct (decide (id = uid)) as [->|Hne].
  - by rewrite lookup_insert_eq.
  - rewrite lookup_insert_ne by done. apply IH.
    apply elem_of_cons in Hin as [?|?]; [congruence|done].
Qed.

(** A row of another user, of no user, or of the empty id does not touch
    the binding of [uid]. *)
Lemma nextSlot_step_other (map : gmap string (option PublicSlot.t))
    (row : SlotRow.t) (uid : string) :
  uid ≠ "" → SlotRow.user_id row ≠ Some uid →
  nextSlot_step map row !! uid = map !! uid.
Proof.
  intros Hne Hother. unfold nextSlot_step.
  destruct (SlotRow.user_id row) as [u|]; [|done].
  destruct (truthy (Some u)); [|done].
  destruct (nullish_at map u); [|done].
  rewrite lookup_insert_ne; [done|congruence].
Qed.

(** Once a user is bound to a slot, later rows do not change the binding. *)
Lemma nextSlots_bound_stays (rows : list SlotRow.t)
    (map : gmap string (option PublicSlot.t)) (uid : string)
    (s : PublicSlot.t) :
  map !! uid = Some (Some s) →
  foldl nextSlot_step map rows !! uid = Some (Some s).
Proof.
  revert map. induction rows as [|row rows IH]; intros map Hs; [done|].
  simpl. apply IH. unfold nextSlot_step.
  destruct (SlotRow.user_id row) as [u|]; [|done].
  destruct (truthy (Some u)); [|done].
  destruct (nullish_at map u) eqn:Hnull; [|done].
  destruct (decide (u = uid)) as [->|Hne].
  - unfold nullish_at in Hnull. by rewrite Hs in Hnull.
  - by rewrite lookup_insert_ne.
Qed.

(** A user bound to null ends up bound to the first of their rows. *)
Lemma nextSlots_first (rows : list SlotRow.t)
    (map : gmap string (option PublicSlot.t)) (uid : string) :
  uid ≠ "" → map !! uid = Some None →
  foldl nextSlot_step map rows !! uid
  = Some (toPublicSlot uid <$> first_slot uid rows).
Proof.
  intros Hne. unfold first_slot.
  revert map. induction rows as [|row rows IH]; intros map Hnull; [done|].
  simpl. rewrite filter_cons.
  destruct (decide (SlotRow.user_id row = Some uid)) as [Hrow|Hrow].
  - simpl. apply nextSlots_bound_stays.
    unfold nextSlot_step. rewrite Hrow. simpl.
    rewrite bool_decide_eq_true_2 by done.
    unfold nullish_at. rewrite Hnull. by rewrite lookup_insert_eq.
  - apply IH. by rewrite nextSlot_step_other.
Qed.

(** In rows sorted by [start_at], a user's first row is their earliest. *)
Lemma first_slot_earliest (localeCompare : string → string → Z)
    (rows : list SlotRow.t) (uid : string) (r r' : SlotRow.t) :
  (∀ a b, localeCompare a b ≤ 0 ∨ localeCompare b a ≤ 0) →
  (∀ a b c, localeCompare a b ≤ 0 → localeCompare b c ≤ 0 →
            localeCompare a c ≤ 0) →
  sorted_by (by_slot_start localeCompare) rows →
  first_slot uid rows = Some r → r' ∈ rows → SlotRow.user_id r' = Some uid →
  localeCompare (SlotRow.start_at r) (SlotRow.start_at r') ≤ 0.
Proof.
  intros Htot Htr Hs Hfirst Hin Hu. unfold first_slot in Hfirst.
  assert (Hin' : r' ∈ filter (λ r, SlotRow.user_id r = Some uid) rows)
    by (by apply list_elem_of_filter).
  apply (sorted_by_filter _ (λ r, SlotRow.user_id r = Some uid)) in Hs;
    [|intros a b c; apply Htr].
  destruct (filter _ rows) as [|x l]; [done|]. simplify_eq/=.
  apply elem_of_cons in Hin' as [->|Hin'].
  - by destruct (Htot (SlotRow.start_at r) (SlotRow.start_at r)).
  - unfold sorted_by in Hs. apply Sorted_StronglySorted in Hs.
    + apply StronglySorted_inv in Hs as [_ Hall].
      by eapply Forall_forall in Hall.
    + intros a b c. apply Htr.
Qed.

(** C9, as stated, fails for the empty user id: a row whose [user_id] is
    the empty string is skipped like a row without one, so that user stays
    bound to null although a slot was fetched for them. *)
Lemma C9_empty_user_id_stays_null :
  first_slot "" [slot_empty_id] = Some slot_empty_id
  ∧ nextSlots [""] [slot_empty_id] !! "" = Some None
  ∧ nextSlots [""] [slot_empty_id] !! ""
    ≠ Some (toPublicSlot "" <$> first_slot "" [slot_empty_id]).
Proof. vm_compute. repeat split; discriminate. Qed.

(** C9, amended: for rows sorted ascending by [start_at] (in a total and
    transitive collation), the map binds each non-empty input user id to
    that user's first fetched row, which is a row of theirs with the least
    [start_at], or to null when no fetched row is theirs; rows whose
    [user_id] is null or the empty string are skipped and change no
    binding; and this map is what a successful call stores. *)
Theorem C9_nextSlots_binds_each_user_to_their_earliest_slot
    (localeCompare : string → string → Z)
    (userIds : list string) (rows : list SlotRow.t) :
  (∀ a b, localeCompare a b ≤ 0 ∨ localeCompare b a ≤ 0) →
  (∀ a b c, localeCompare a b ≤ 0 → localeCompare b c ≤ 0 →
            localeCompare a c ≤ 0) →
  sorted_by (by_slot_start localeCompare) rows →
  (∀ uid, uid ∈ userIds → uid ≠ "" →
     nextSlots userIds rows !! uid
     = Some (toPublicSlot uid <$> first_slot uid rows)
     ∧ (∀ r, first_slot uid rows = Some r →
          r ∈ rows ∧ SlotRow.user_id r = Some uid
          ∧ ∀ r', r' ∈ rows → SlotRow.user_id r' = Some uid →
              localeCompare (SlotRow.start_at r) (SlotRow.start_at r') ≤ 0)
     ∧ (first_slot uid rows = None
        ↔ ∀ r', r' ∈ rows → SlotRow.user_id r' ≠ Some uid))
  ∧ (∀ map row,
       SlotRow.user_id row = None ∨ SlotRow.user_id row = Some "" →
       nextSlot_step map row = map)
  ∧ (∀ nowIso st, userIds ≠ [] →
       fetchNextSlotsForUsers userIds nowIso (mkReply (Some rows) None) st
       = (setLoadingNextSlots false
            (setNextSlotMap (nextSlots userIds rows)
               (setLoadingNextSlots true st)),
          [fetchNextSlots_request userIds nowIso], None)).
Proof.
  intros Htot Htr Hs. split; [|split].
  - intros uid Hin Hne. split; [|split].
    + unfold nextSlots. apply nextSlots_first; [done|].
      by apply initial_map_lookup.
    + intros r Hfirst.
      assert (Hr : r ∈ filter (λ r, SlotRow.user_id r = Some uid) rows).
      { unfold first_slot in Hfirst.
        destruct (filter _ rows) as [|x l]; simplify_eq/=. by left. }
      apply list_elem_of_filter in Hr as [Hu Hr].
      split; [done|]. split; [done|]. intros r' Hin' Hu'.
      by apply (first_slot_earliest localeCompare rows uid).
    + unfold first_slot. rewrite head_None. split.
      * intros Hnil r' Hin' Hu'.
        assert (Hr : r' ∈ filter (λ r, SlotRow.user_id r = Some uid) rows)
          by (by apply list_elem_of_filter).
        rewrite Hnil in Hr. by apply elem_of_nil in Hr.
      * intros Hnone.
        destruct (filter _ rows) as [|x l] eqn:Hf; [done|].
        assert (Hx : x ∈ filter (λ r, SlotRow.user_id r = Some uid) rows)
          by (rewrite Hf; by left).
        apply list_elem_of_filter in Hx as [Hu Hx]. by destruct (Hnone x).
  - intros map row [Hrow|Hrow]; unfold nextSlot_step; by rewrite Hrow.
  - intros nowIso st Hids. unfold fetchNextSlotsForUsers.
    by destruct userIds.
Qed.

Lemma C9_nextSlots_witness :
  let rows := [slot_u1_early; slot_nobody; slot_u1_late] in
  nextSlots ["u1"; "u2"] rows !! "u1"
    = Some (Some (toPublicSlot "u1" slot_u1_early))
  ∧ nextSlots ["u1"; "u2"] rows !! "u2" = Some None.
Proof.
  assert (Hs : sorted_by (by_slot_start codeUnitCompare)
                 [slot_u1_early; slot_nobody; slot_u1_late]) by show_sorted.
  destruct (C9_nextSlots_binds_each_user_to_their_earliest_slot
              codeUnitCompare ["u1"; "u2"]
              [slot_u1_early; slot_nobody; slot_u1_late]
              codeUnitCompare_total codeUnitCompare_trans Hs) as [Hbind _].
  split.
  - destruct (Hbind "u1") as [-> _]; [by left|done|reflexivity].
  - destruct (Hbind "u2") as [-> _]; [by right; left|done|reflexivity].
Defined.

(** * Further properties of the page *)

(** ** The profile form *)

Lemma or_empty_or_null (s : string) : or_empty (or_null s) = s.
Proof. unfold or_null. by case_bool_decide. Qed.

Lemma or_null_or_empty (x : option string) :
  x ≠ Some "" → or_null (or_empty x) = x.
Proof.
  intros Hx. destruct x as [s|]; simpl; [|done].
  unfold or_null. rewrite bool_decide_eq_false_2; [done|congruence].
Qed.

(** X27: saving never changes what the form shows: when the backend hands back
    the row with the patched columns as they were sent, re-hydrating the
    form from it gives the form that was saved, whatever the form held. *)
Theorem save_then_hydrate_keeps_the_form
    (f : ProfileForm.t) (stored : ProfileRow.t) (st : PageState) :
  hydrateFormFromProfile (patched_row (profilePatch f) stored) = f
  ∧ (handleSaveProfile
       (mkReply (Some (patched_row (profilePatch f) stored)) None) st f).1.2
    = f.
Proof.
  assert (H : hydrateFormFromProfile (patched_row (profilePatch f) stored) = f).
  { destruct f as [n l a g h p y pu av].
    unfold hydrateFormFromProfile, patched_row, profilePatch. simpl.
    rewrite !or_empty_or_null. by destruct pu. }
  split; [done|]. unfold handleSaveProfile.
  destruct (user st); [|done]. simpl. exact H.
Qed.

(** X28: hydrating the form from a stored profile and saving it untouched
    writes the stored values back, provided no text column holds the empty
    string and the purpose list is not empty (those are written as null);
    in any case doing it a second time changes nothing more. *)
Theorem hydrate_then_save_writes_the_profile_back (pf : ProfileRow.t) :
  let resaved pf := patched_row (profilePatch (hydrateFormFromProfile pf)) pf in
  (ProfileRow.nickname pf ≠ Some "" → ProfileRow.area_code pf ≠ Some "" →
   ProfileRow.avatar_url pf ≠ Some "" → ProfileRow.purpose pf ≠ Some [] →
   resaved pf = pf)
  ∧ resaved (resaved pf) = resaved pf.
Proof.
  destruct pf as [ac av bio cr g h l n ps pu uid y]. split.
  - simpl. intros Hn Ha Hv Hp.
    unfold patched_row, profilePatch, hydrateFormFromProfile. simpl.
    rewrite !or_null_or_empty by done.
    by destruct pu as [[|]|].
  - unfold patched_row, profilePatch, hydrateFormFromProfile. simpl.
    rewrite !or_empty_or_null. f_equal.
    by destruct pu as [[|]|].
Qed.

Lemma hydrate_then_save_witness :
  patched_row (profilePatch (hydrateFormFromProfile carol_profile))
    carol_profile
  = carol_profile.
Proof.
  destruct (hydrate_then_save_writes_the_profile_back carol_profile)
    as [Hback _].
  apply Hback; discriminate.
Defined.

(** ** The purpose picker *)

Lemma filter_ne_absent (value : list string) (v : string) :
  v ∉ value → filter (λ x, x ≠ v) value = value.
Proof.
  induction value as [|x value IH]; [done|].
  intros Hin. apply not_elem_of_cons in Hin as [Hx Hin].
  rewrite filter_cons, decide_True by done. by rewrite IH.
Qed.

Lemma filter_ne_once (value : list string) (v : string) :
  NoDup value → v ∈ value → filter (λ x, x ≠ v) value ++ [v] ≡ₚ value.
Proof.
  induction value as [|x value IH]; [by intros _ ?%elem_of_nil|].
  intros [Hx Hnd]%NoDup_cons Hin. rewrite filter_cons.
  destruct (decide (x = v)) as [->|Hne].
  - rewrite decide_False by (by intros ?).
    rewrite filter_ne_absent by done.
    symmetry. apply Permutation_cons_append.
  - rewrite decide_True by done. simpl. f_equiv. apply IH; [done|].
    apply elem_of_cons in Hin as [?|?]; [congruence|done].
Qed.

(** X29: toggling an option flips whether it is selected and nothing else: the
    other options stay selected or not as they were, a selection without
    repetitions stays without repetitions, toggling twice an option that
    was not selected restores the list, and toggling twice any option of a
    selection without repetitions restores it up to order. *)
Theorem toggle_flips_one_option (value : list string) (v : string) :
  (v ∈ toggle value v ↔ v ∉ value)
  ∧ (∀ x, x ≠ v → (x ∈ toggle value v ↔ x ∈ value))
  ∧ (NoDup value → NoDup (toggle value v))
  ∧ (v ∉ value → toggle (toggle value v) v = value)
  ∧ (NoDup value → toggle (toggle value v) v ≡ₚ value).
Proof.
  assert (Hoff : v ∉ value → toggle (toggle value v) v = value).
  { intros Hin. unfold toggle at 2. rewrite bool_decide_eq_false_2 by done.
    unfold toggle. rewrite bool_decide_eq_true_2
      by (rewrite elem_of_app, list_elem_of_singleton; by right).
    rewrite filter_app, filter_cons, decide_False, filter_nil by (by intros ?).
    rewrite app_nil_r. by apply filter_ne_absent. }
  split; [|split; [|split; [|split]]].
  - unfold toggle. case_bool_decide as Hin.
    + rewrite list_elem_of_filter. intuition.
    + rewrite elem_of_app, list_elem_of_singleton. intuition.
  - intros x Hx. unfold toggle. case_bool_decide as Hin.
    + rewrite list_elem_of_filter. intuition.
    + rewrite elem_of_app, list_elem_of_singleton. intuition.
  - intros Hnd. unfold toggle. case_bool_decide as Hin.
    + by apply NoDup_filter.
    + apply NoDup_app. split; [done|]. split; [|apply NoDup_singleton].
      intros x Hx ->%list_elem_of_singleton. done.
  - exact Hoff.
  - intros Hnd. destruct (decide (v ∈ value)) as [Hin|Hin].
    + unfold toggle at 2. rewrite bool_decide_eq_true_2 by done.
      unfold toggle. rewrite bool_decide_eq_false_2
        by (rewrite list_elem_of_filter; by intros [? _]).
      by apply filter_ne_once.
    + by rewrite Hoff.
Qed.

Lemma toggle_witness :
  toggle (toggle ["serve"; "match"] "basic") "basic" = ["serve"; "match"]
  ∧ toggle (toggle ["serve"; "match"] "serve") "serve" ≡ₚ ["serve"; "match"].
Proof.
  destruct (toggle_flips_one_option ["serve"; "match"] "basic")
    as (_ & _ & _ & Hoff & _).
  destruct (toggle_flips_one_option ["serve"; "match"] "serve")
    as (_ & _ & _ & _ & Hon).
  split.
  - apply Hoff. apply (bool_decide_unpack _). vm_compute. exact I.
  - apply Hon. apply (bool_decide_unpack _). vm_compute. exact I.
Defined.

(** ** Creating the profile on first sign-in *)

(** X30: [ensureProfile] inserts a profile only after its lookup succeeded and
    found none, and then at most once and under the user's own id with the
    name and avatar of the sign-in metadata; a profile that was found is
    returned as it is after the single lookup; and a profile it returns is
    the one found or, when none was found, the one the insert returned. *)
Theorem ensureProfile_inserts_only_when_none_was_found
    (u : User.t) (found inserted : Reply ProfileRow.t) :
  let out := ensureProfile u found inserted in
  (∀ p, insert_profile p ∈ snd out →
     error found = None ∧ data found = None
     ∧ p = ProfileInsert.mk (User.id u) (User.name u) (User.avatar_url u)
     ∧ snd out = [select_profile (User.id u); insert_profile p])
  ∧ (∀ pf, error found = None → data found = Some pf →
       out = (inl pf, [select_profile (User.id u)]))
  ∧ (∀ pf, fst out = inl pf →
       error found = None
       ∧ (data found = Some pf
          ∨ (data found = None ∧ error inserted = None
             ∧ data inserted = Some pf))).
Proof.
  unfold ensureProfile. simpl. split; [|split].
  - intros p Hin.
    destruct (error found); [by apply list_elem_of_singleton in Hin|].
    destruct (data found); [by apply list_elem_of_singleton in Hin|].
    assert (Hp : p = ProfileInsert.mk (User.id u) (User.name u)
                       (User.avatar_url u)).
    { destruct (error inserted); [|destruct (data inserted)]; simpl in Hin;
        apply elem_of_cons in Hin as [[=]|Hin];
        apply list_elem_of_singleton in Hin; by simplify_eq. }
    subst p. repeat split; try done.
    by destruct (error inserted); [|destruct (data inserted)].
  - by intros pf -> ->.
  - intros pf Hout. destruct (error found); [done|].
    destruct (data found) as [pf'|]; simpl in Hout.
    + split; [done|]. left. congruence.
    + split; [done|]. right. split; [done|].
      destruct (error inserted); [done|].
      destruct (data inserted); simpl in Hout; [|done].
      split; [done|]. congruence.
Qed.

Lemma ensureProfile_witness :
  ensureProfile carol_user (mkReply (Some carol_profile) None)
    (mkReply None None)
  = (inl carol_profile, [select_profile "carol"])
  ∧ snd (ensureProfile carol_user (mkReply None None)
           (mkReply (Some carol_profile) None))
    = [select_profile "carol";
       insert_profile (ProfileInsert.mk "carol" (Some "Carol") None)].
Proof.
  split.
  - destruct (ensureProfile_inserts_only_when_none_was_found carol_user
                (mkReply (Some carol_profile) None) (mkReply None None))
      as (_ & Hfound & _).
    by apply Hfound.
  - destruct (ensureProfile_inserts_only_when_none_was_found carol_user
                (mkReply None None) (mkReply (Some carol_profile) None))
      as (Hins & _ & _).
    destruct (Hins (ProfileInsert.mk "carol" (Some "Carol") None))
      as (_ & _ & _ & Hall); [|exact Hall].
    vm_compute. right. left.
Defined.

(** ** The other participant *)

(** X22: for a match that names the user, [otherId] is the other participant:
    the two participant columns are the user and [otherId], in one order
    or the other; and [otherId] is the user only when both columns are. A
    match that does not name the user shows its [user_a]. *)
Theorem otherId_is_the_other_participant (uid : string) (m : MatchRow.t) :
  (involvesMe uid m = true →
     ((MatchRow.user_a m, MatchRow.user_b m) = (Some uid, otherId uid m)
      ∨ (MatchRow.user_a m, MatchRow.user_b m) = (otherId uid m, Some uid))
     ∧ (otherId uid m = Some uid →
        MatchRow.user_a m = Some uid ∧ MatchRow.user_b m = Some uid))
  ∧ (involvesMe uid m = false → otherId uid m = MatchRow.user_a m).
Proof.
  unfold involvesMe, otherId. split.
  - intros [Ha|Hb]%orb_true_iff.
    + apply bool_decide_eq_true in Ha. rewrite bool_decide_eq_true_2 by done.
      rewrite Ha. split; [by left|]. by intros ->.
    + apply bool_decide_eq_true in Hb. case_bool_decide as Ha.
      * rewrite Ha, Hb. split; [by left|done].
      * rewrite Hb. split; [by right|]. by intros ?.
  - intros [Ha _]%orb_false_iff. by rewrite Ha.
Qed.

Lemma otherId_witness :
  involvesMe "alice" m6 = true
  ∧ ((MatchRow.user_a m6, MatchRow.user_b m6)
       = (Some "alice", otherId "alice" m6)
     ∨ (MatchRow.user_a m6, MatchRow.user_b m6)
       = (otherId "alice" m6, Some "alice")).
Proof.
  split; [reflexivity|].
  destruct (otherId_is_the_other_participant "alice" m6) as [Hnamed _].
  destruct Hnamed as [Hpair _]; [reflexivity|exact Hpair].
Defined.

(** ** The chat over time *)

(** X12: a notification for a row with an id that is delivered twice is shown
    once: the second delivery changes nothing. *)
Theorem notification_delivered_twice_is_shown_once
    (payload : Payload MessageRow.t) (row : MessageRow.t) (k : Z)
    (st : PageState) :
  new payload = Some row → MessageRow.id row = Some k →
  chat_onInsert payload (chat_onInsert payload st) = chat_onInsert payload st.
Proof.
  intros Hnew Hid.
  destruct (decide (String_of_number k ∈ messageIdsRef st)) as [Hseen|Hseen].
  - by rewrite !(chat_onInsert_seen payload row k st).
  - rewrite (chat_onInsert_unseen payload row k st) by done.
    apply (chat_onInsert_seen payload row k); [done..|].
    simpl. apply elem_of_union_l. by apply elem_of_singleton.
Qed.

Lemma notification_twice_witness :
  messages (chat_onInsert (mkPayload INSERT (Some msg8) None)
              (chat_onInsert (mkPayload INSERT (Some msg8) None) page0))
  = [msg8].
Proof.
  rewrite (notification_delivered_twice_is_shown_once
             (mkPayload INSERT (Some msg8) None) msg8 8 page0);
    reflexivity.
Defined.

Lemma fetchMessages_ids_recorded (matchId : Z)
    (reply : Reply (list MessageRow.t)) (st : PageState) :
  ids_recorded st → ids_recorded (fst (fetchMessages matchId reply st)).
Proof.
  intros Hrec. unfold fetchMessages.
  destruct (error reply); [done|]. destruct (data reply) as [rows|]; [|done].
  intros m k Hm Hk. simpl in *. by apply elem_of_message_ids; exists m.
Qed.

Lemma recorded_append (row : MessageRow.t) (st : PageState) :
  ids_recorded st →
  (∀ k, MessageRow.id row = Some k → String_of_number k ∈ messageIdsRef st) →
  ids_recorded (setMessages (λ prev, prev ++ [row]) st).
Proof.
  intros Hrec Hrow m k Hm Hk. simpl in *.
  apply elem_of_app in Hm as [Hm|Hm%list_elem_of_singleton].
  - by apply (Hrec m).
  - subst m. by apply Hrow.
Qed.

Lemma recorded_add (key : string) (st : PageState) :
  ids_recorded st → ids_recorded (addMessageId key st).
Proof.
  intros Hrec m k Hm Hk. simpl in *.
  apply elem_of_union_r. by apply (Hrec m).
Qed.

Lemma chat_onInsert_ids_recorded (payload : Payload MessageRow.t)
    (st : PageState) :
  ids_recorded st → ids_recorded (chat_onInsert payload st).
Proof.
  intros Hrec. destruct (new payload) as [row|] eqn:Hnew;
    [|by unfold chat_onInsert; rewrite Hnew].
  destruct (MessageRow.id row) as [k|] eqn:Hid.
  - destruct (decide (String_of_number k ∈ messageIdsRef st)) as [Hs|Hs].
    + by rewrite (chat_onInsert_seen payload row k).
    + rewrite (chat_onInsert_unseen payload row k) by done.
      apply recorded_append; [by apply recorded_add|].
      intros k'. rewrite Hid. intros [= <-]. simpl.
      apply elem_of_union_l. by apply elem_of_singleton.
  - rewrite (chat_onInsert_no_id payload row) by done.
    apply recorded_append; [done|]. intros k'. by rewrite Hid.
Qed.

Lemma handleSendMessage_ids_recorded (reply : Reply MessageRow.t)
    (st : PageState) :
  ids_recorded st → ids_recorded (fst (handleSendMessage reply st)).
Proof.
  intros Hrec. unfold handleSendMessage.
  destruct (user st) as [userId|]; [|done].
  destruct (activeMatchId st) as [matchId|]; [|done].
  destruct (negb (truthy (Some userId))); [done|].
  case_bool_decide; [done|].
  destruct (error reply) as [e|]; [done|].
  destruct (data reply) as [row|]; [|done].
  unfold message_key. destruct (MessageRow.id row) as [k|] eqn:Hid;
    intros m k' Hm Hk; simpl in *.
  - apply elem_of_app in Hm as [Hm|Hm%list_elem_of_singleton].
    + apply elem_of_union_r. by apply (Hrec m).
    + subst m. rewrite Hid in Hk. injection Hk as <-.
      apply elem_of_union_l. by apply elem_of_singleton.
  - apply elem_of_app in Hm as [Hm|Hm%list_elem_of_singleton].
    + by apply (Hrec m).
    + subst m. by rewrite Hid in Hk.
Qed.

Lemma apply_chat_event_ids_recorded (ev : ChatEvent) (st : PageState) :
  ids_recorded st → ids_recorded (apply_chat_event st ev).
Proof.
  intros Hrec.
  destruct ev as [matchId reply|reply|payload|reply|]; unfold apply_chat_event.
  - unfold openChat. apply fetchMessages_ids_recorded.
    intros m k Hm Hk. by apply (Hrec m).
  - destruct (activeMatchId st); [|done]. by apply fetchMessages_ids_recorded.
  - by apply chat_onInsert_ids_recorded.
  - by apply handleSendMessage_ids_recorded.
  - by intros m k ?%elem_of_nil.
Qed.

Lemma foldl_ids_recorded (events : list ChatEvent) (st : PageState) :
  ids_recorded st → ids_recorded (foldl apply_chat_event st events).
Proof.
  revert st. induction events as [|ev events IH]; intros st Hrec; [done|].
  simpl. by apply IH, apply_chat_event_ids_recorded.
Qed.

(** X13: whatever happens to the chat (opening one, refreshing it, pushed
    inserts, own sends, signing out), every id that is shown is in the
    seen-set. *)
Theorem shown_ids_stay_recorded (events : list ChatEvent) (st : PageState) :
  ids_recorded st → ids_recorded (foldl apply_chat_event st events).
Proof. apply foldl_ids_recorded. Qed.

Lemma shown_ids_witness :
  ids_recorded
    (foldl apply_chat_event page0
       [ chat_opened 1 (mkReply (Some [msg7]) None);
         chat_pushed (mkPayload INSERT (Some msg8) None);
         chat_sent (mkReply (Some msg7) None) ]).
Proof.
  apply shown_ids_stay_recorded. by intros m k ?%elem_of_nil.
Defined.

Lemma unique_ids_append (row : MessageRow.t) (l : list MessageRow.t) :
  unique_ids l →
  (∀ k, MessageRow.id row = Some k → Some k ∉ MessageRow.id <$> l) →
  unique_ids (l ++ [row]).
Proof.
  unfold unique_ids. intros Hnd Hfresh. rewrite omap_app.
  destruct (MessageRow.id row) as [k|] eqn:Hid; simpl; rewrite Hid; simpl.
  - apply NoDup_app. split; [done|]. split; [|apply NoDup_singleton].
    intros k' Hk' ->%list_elem_of_singleton.
    apply list_elem_of_omap in Hk' as (m & Hm & Hmk).
    apply (Hfresh k eq_refl). apply list_elem_of_fmap. by exists m.
  - by rewrite app_nil_r.
Qed.

Lemma chat_onInsert_unique_ids (payload : Payload MessageRow.t)
    (st : PageState) :
  ids_recorded st → unique_ids (messages st) →
  unique_ids (messages (chat_onInsert payload st)).
Proof.
  intros Hrec Hnd. destruct (new payload) as [row|] eqn:Hnew;
    [|by unfold chat_onInsert; rewrite Hnew].
  destruct (MessageRow.id row) as [k|] eqn:Hid.
  - destruct (decide (String_of_number k ∈ messageIdsRef st)) as [Hs|Hs].
    + by rewrite (chat_onInsert_seen payload row k).
    + rewrite (chat_onInsert_unseen payload row k) by done. simpl.
      apply unique_ids_append; [done|]. intros k'. rewrite Hid.
      intros [= <-] (m & Hmk & Hm)%list_elem_of_fmap.
      apply Hs. by apply (Hrec m).
  - rewrite (chat_onInsert_no_id payload row) by done. simpl.
    apply unique_ids_append; [done|]. intros k'. by rewrite Hid.
Qed.

(** As long as the sender's own append is not involved, no id is ever shown
    twice: starting from a chat whose shown ids are recorded and distinct,
    any sequence of fetches (whose rows carry no id twice), pushed inserts
    and sign-outs keeps the shown ids recorded and distinct. *)
Theorem pushed_inserts_never_duplicate_an_id
    (events : list ChatEvent) (st : PageState) :
  Forall pushed_or_clean_load events →
  ids_recorded st → unique_ids (messages st) →
  ids_recorded (foldl apply_chat_event st events)
  ∧ unique_ids (messages (foldl apply_chat_event st events)).
Proof.
  intros Hevs Hrec Hnd. split; [by apply foldl_ids_recorded|].
  revert st Hrec Hnd.
  induction Hevs as [|ev events Hev Hevs IH]; intros st Hrec Hnd; [done|].
  simpl. apply IH; [by apply apply_chat_event_ids_recorded|].
  destruct ev as [matchId reply|reply|payload|reply|]; simpl in *.
  - unfold fetchMessages. destruct (error reply); [done|].
    destruct (data reply) as [rows|]; [|done]. by apply Hev.
  - destruct (activeMatchId st); [|done].
    unfold fetchMessages. destruct (error reply); [done|].
    destruct (data reply) as [rows|]; [|done]. by apply Hev.
  - by apply chat_onInsert_unique_ids.
  - done.
  - apply NoDup_nil_2.
Qed.

Lemma pushed_inserts_witness :
  unique_ids
    (messages
       (foldl apply_chat_event page0
          [ chat_opened 1 (mkReply (Some [msg7]) None);
            chat_pushed (mkPayload INSERT (Some msg7) None);
            chat_pushed (mkPayload INSERT (Some msg8) None);
            chat_pushed (mkPayload INSERT (Some msg8) None) ])).
Proof.
  destruct (pushed_inserts_never_duplicate_an_id
              [ chat_opened 1 (mkReply (Some [msg7]) None);
                chat_pushed (mkPayload INSERT (Some msg7) None);
                chat_pushed (mkPayload INSERT (Some msg8) None);
                chat_pushed (mkPayload INSERT (Some msg8) None) ] page0)
    as [_ Hunique]; [|by intros m k ?%elem_of_nil|apply NoDup_nil_2|exact Hunique].
  repeat constructor. intros rows [= <-].
  apply (bool_decide_unpack _). vm_compute. exact I.
Defined.

(** ** Sending a message *)

(** A text is white space only exactly when nothing is left of it once the
    white space at its front is dropped. *)
Lemma trimStart_only_space_iff (s : string) :
  only_space s = true ↔ trimStart s = "".
Proof.
  remember (String.length s) as n eqn:Hn. revert s Hn.
  induction n as [n IH] using lt_wf_ind. intros s ->.
  assert (Hrec : ∀ t, (String.length t < String.length s)%nat →
                      only_space t = true ↔ trimStart t = "").
  { intros t Ht. by apply (IH (String.length t)). }
  clear IH. destruct s as [|a s1]; [done|].
  change (only_space (String a s1))
    with (if Ascii.is_space a then only_space s1
          else match s1 with
               | String b s2 =>
                   if is_space2 a b then only_space s2
                   else match s2 with
                        | String c s3 => is_space3 a b c && only_space s3
                        | EmptyString => false
                        end
               | EmptyString => false
               end).
  change (trimStart (String a s1))
    with (if Ascii.is_space a then trimStart s1
          else match s1 with
               | String b s2 =>
                   if is_space2 a b then trimStart s2
                   else match s2 with
                        | String c s3 =>
                            if is_space3 a b c then trimStart s3
                            else String a s1
                        | EmptyString => String a s1
                        end
               | EmptyString => String a s1
               end).
  destruct (Ascii.is_space a); [apply Hrec; simpl; lia|].
  destruct s1 as [|b s2]; [done|].
  destruct (is_space2 a b); [apply Hrec; simpl; lia|].
  destruct s2 as [|c s3]; [done|].
  destruct (is_space3 a b c); [apply Hrec; simpl; lia|done].
Qed.

Lemma trimStart_only_space (s : string) :
  only_space s = true → trimStart s = "".
Proof. apply trimStart_only_space_iff. Qed.

Lemma trim_only_space (s : string) : only_space s = true → trim s = "".
Proof. intros Hs. unfold trim. by rewrite trimStart_only_space. Qed.

(** White space beyond the ASCII range is stripped at both ends, and a text
    made of it is blank. *)
Example trim_strips_unicode_white_space :
  trim padded_word = "ok" ∧ trim ideographic_space = ""
  ∧ only_space ideographic_space = true ∧ trim " a b " = "a b".
Proof. vm_compute. done. Qed.

(** X15: a send goes out only from an open chat of a signed-in user with a draft
    that is not blank, and then it is the single insert of the trimmed
    draft under the open match and the user's id. A draft of white space
    only, of the ASCII range or beyond it (an ideographic space, a no-break
    space), in particular, sends nothing and changes nothing. *)
Theorem a_blank_draft_is_not_sent (reply : Reply MessageRow.t)
    (st : PageState) :
  (∀ matchId sender body,
     insert_message matchId sender body ∈ snd (handleSendMessage reply st) →
     activeMatchId st = Some matchId ∧ user st = Some sender ∧ sender ≠ ""
     ∧ body = trim (chatBody st) ∧ body ≠ ""
     ∧ snd (handleSendMessage reply st) = [insert_message matchId sender body])
  ∧ (only_space (chatBody st) = true → handleSendMessage reply st = (st, [])).
Proof.
  split.
  - intros matchId sender body. unfold handleSendMessage.
    destruct (user st) as [userId|]; [|by intros ?%elem_of_nil].
    destruct (activeMatchId st) as [k|]; [|by intros ?%elem_of_nil].
    destruct (truthy (Some userId)) eqn:Hu; simpl; [|by intros ?%elem_of_nil].
    case_bool_decide as Hb; [by intros ?%elem_of_nil|].
    simpl. intros Hin%list_elem_of_singleton. simplify_eq.
    apply bool_decide_eq_true in Hu. done.
  - intros Hblank. unfold handleSendMessage.
    destruct (user st) as [userId|]; [|done].
    destruct (activeMatchId st) as [k|]; [|done].
    destruct (negb (truthy (Some userId))); [done|].
    rewrite bool_decide_eq_true_2; [done|].
    by apply trim_only_space.
Qed.

Lemma a_blank_draft_witness :
  handleSendMessage (mkReply (Some msg7) None)
    (setChatBody ideographic_space page0)
  = (setChatBody ideographic_space page0, []).
Proof.
  destruct (a_blank_draft_is_not_sent (mkReply (Some msg7) None)
              (setChatBody ideographic_space page0)) as [_ Hblank].
  apply Hblank. reflexivity.
Defined.

(** X16: when the guards of a send pass: a failed insert leaves the visible
    sequence, the seen-set and the draft as they were and reports the
    error; an insert without error clears the draft, and the visible
    sequence grows by the returned row if one came back. In both cases the
    busy flag is off afterwards. *)
Theorem a_failed_send_keeps_the_draft (reply : Reply MessageRow.t)
    (st : PageState) (matchId : Z) (sender : string) :
  activeMatchId st = Some matchId → user st = Some sender → sender ≠ "" →
  trim (chatBody st) ≠ "" →
  let st' := fst (handleSendMessage reply st) in
  busy st' = false
  ∧ (∀ e, error reply = Some e →
       messages st' = messages st ∧ messageIdsRef st' = messageIdsRef st
       ∧ chatBody st' = chatBody st
       ∧ msg st' = Some ("メッセージ送信に失敗: " +:+ e))
  ∧ (error reply = None →
       chatBody st' = ""
       ∧ messages st' = messages st ++ option_list (data reply)).
Proof.
  intros Ha Hu Hne Hb. unfold handleSendMessage. rewrite Ha, Hu.
  simpl. rewrite (bool_decide_eq_true_2 (sender ≠ "")) by done. simpl.
  rewrite bool_decide_eq_false_2 by done. simpl. split; [done|]. split.
  - by intros e ->.
  - intros ->. split; [done|].
    destruct (data reply) as [row|]; simpl; [|by rewrite app_nil_r].
    by destruct (message_key row).
Qed.

Lemma a_failed_send_witness :
  chatBody (fst (handleSendMessage (mkReply None (Some "offline")) page0))
  = "hi"
  ∧ messages (fst (handleSendMessage (mkReply None (Some "offline")) page0))
    = [].
Proof.
  destruct (a_failed_send_keeps_the_draft (mkReply None (Some "offline"))
              page0 1 "alice") as (_ & Herr & _);
    [reflexivity|reflexivity|discriminate|vm_compute; discriminate|].
  destruct (Herr "offline") as (Hm & _ & Hc & _); [reflexivity|].
  split; [exact Hc|exact Hm].
Defined.

(** ** The matches list over time *)

Lemma replace_by_id_ids (row : MatchRow.t) (prev : list MatchRow.t) :
  MatchRow.id <$> replace_by_id (MatchRow.id row) row prev
  = MatchRow.id <$> prev.
Proof.
  unfold replace_by_id. rewrite <- list_fmap_compose.
  apply list_fmap_ext. intros i m _. simpl. unfold strict_eq.
  by case_bool_decide.
Qed.

Lemma existsb_strict_eq (k : option Z) (l : list MatchRow.t) :
  existsb (λ m, strict_eq (MatchRow.id m) k) l = true
  ↔ k ∈ MatchRow.id <$> l.
Proof.
  rewrite existsb_exists, list_elem_of_fmap. unfold strict_eq.
  split.
  - intros (m & Hm%list_elem_of_In & Hk%bool_decide_eq_true). by exists m.
  - intros (m & Hk & Hm). exists m.
    split; [by apply list_elem_of_In|by apply bool_decide_eq_true].
Qed.

(** X6: the matches channel never puts an id into the list twice: whatever the
    pushed event, a list with distinct ids is updated to a list with
    distinct ids. *)
Theorem matches_channel_keeps_ids_distinct
    (localeCompare : string → string → Z) (uid : string)
    (payload : Payload MatchRow.t) (st : PageState) :
  NoDup (MatchRow.id <$> matches st) →
  NoDup (MatchRow.id <$> matches (matches_onChange localeCompare uid payload st)).
Proof.
  intros Hnd.
  destruct (matches_onChange_cases localeCompare uid payload st) as [->| ->];
    [done|].
  simpl. unfold matches_updater. rewrite Array_sort_perm.
  destruct (eventType payload).
  - destruct (new payload) as [rowNew|]; [|done].
    destruct (existsb _ _) eqn:Hex; [done|].
    rewrite fmap_app. apply NoDup_app. split; [done|].
    split; [|apply NoDup_singleton].
    intros k Hk ->%list_elem_of_singleton.
    apply existsb_strict_eq in Hk. congruence.
  - destruct (new payload) as [rowNew|]; [|done].
    by rewrite replace_by_id_ids.
  - destruct (old payload) as [rowOld|]; [|done].
    eapply sublist_NoDup; [exact Hnd|].
    apply fmap_sublist, sublist_filter.
Qed.

Lemma matches_channel_distinct_witness :
  NoDup (MatchRow.id <$>
           matches (matches_onChange codeUnitCompare "alice"
                      (mkPayload INSERT (Some m5) None) page_m5)).
Proof.
  apply matches_channel_keeps_ids_distinct.
  apply (bool_decide_unpack _). vm_compute. exact I.
Defined.

Lemma replace_by_id_fixed (row : MatchRow.t) (l : list MatchRow.t) :
  (∀ m, m ∈ l → MatchRow.id m = MatchRow.id row → m = row) →
  replace_by_id (MatchRow.id row) row l = l.
Proof.
  intros Hfix. unfold replace_by_id.
  rewrite <- (list_fmap_id l) at 2. apply list_fmap_ext.
  intros i m Hm%list_elem_of_lookup_2. simpl. unfold strict_eq.
  case_bool_decide; [|done]. symmetry. by apply Hfix.
Qed.

Lemma filter_all {A} (P : A → Prop) `{∀ x, Decision (P x)} (l : list A) :
  (∀ x, x ∈ l → P x) → filter P l = l.
Proof.
  induction l as [|x l IH]; [done|]. intros Hall.
  rewrite filter_cons, decide_True by (apply Hall; by left).
  rewrite IH; [done|]. intros y Hy. apply Hall. by right.
Qed.

(** X7: a pushed event that is delivered twice has the effect of one delivery:
    applying the channel's updater a second time with the same payload
    changes nothing (for a total collation). *)
Theorem matches_event_delivered_twice_counts_once
    (localeCompare : string → string → Z)
    (payload : Payload MatchRow.t) (prev : list MatchRow.t) :
  (∀ a b, localeCompare a b ≤ 0 ∨ localeCompare b a ≤ 0) →
  matches_updater localeCompare payload
    (matches_updater localeCompare payload prev)
  = matches_updater localeCompare payload prev.
Proof.
  intros Htot.
  pose proof (matches_updater_sorted localeCompare payload prev Htot) as Hs.
  remember (matches_updater localeCompare payload prev) as once eqn:Honce.
  unfold matches_updater at 1.
  assert (Hsame :
    match eventType payload with
    | INSERT =>
        match new payload with
        | Some rowNew =>
            if existsb (λ m, strict_eq (MatchRow.id m) (MatchRow.id rowNew)) once
            then once else once ++ [rowNew]
        | None => once
        end
    | UPDATE =>
        match new payload with
        | Some rowNew => replace_by_id (MatchRow.id rowNew) rowNew once
        | None => once
        end
    | DELETE =>
        match old payload with
        | Some rowOld => filter (λ m, MatchRow.id m ≠ MatchRow.id rowOld) once
        | None => once
        end
    end = once); [|by rewrite Hsame, Array_sort_id].
  unfold matches_updater in Honce.
  destruct (eventType payload).
  - destruct (new payload) as [rowNew|]; [|done].
    assert (Hin : existsb
              (λ m, strict_eq (MatchRow.id m) (MatchRow.id rowNew)) once = true);
      [|by rewrite Hin].
    apply existsb_strict_eq. subst once. rewrite Array_sort_perm.
    destruct (existsb _ prev) eqn:Hex.
    + by apply existsb_strict_eq.
    + rewrite fmap_app. apply elem_of_app. right. by apply list_elem_of_singleton.
  - destruct (new payload) as [rowNew|]; [|done].
    apply replace_by_id_fixed. intros m Hm Hid. subst once.
    apply elem_of_Array_sort in Hm. unfold replace_by_id in Hm.
    apply list_elem_of_fmap in Hm as (m0 & -> & Hm0). unfold strict_eq in *.
    case_bool_decide; [done|]. simpl in Hid. congruence.
  - destruct (old payload) as [rowOld|]; [|done].
    apply filter_all. intros m Hm. subst once.
    apply elem_of_Array_sort in Hm. by apply list_elem_of_filter in Hm as [? _].
Qed.

Lemma matches_event_twice_witness :
  matches_updater codeUnitCompare (mkPayload INSERT (Some m6) None)
    (matches_updater codeUnitCompare (mkPayload INSERT (Some m6) None) [m5])
  = [m6; m5].
Proof.
  rewrite (matches_event_delivered_twice_counts_once codeUnitCompare
             (mkPayload INSERT (Some m6) None) [m5] codeUnitCompare_total).
  vm_compute. reflexivity.
Defined.

(** X8: a proposal that was appended locally is not appended again when its
    own insert notification arrives afterwards: the list stays as the
    proposal left it (for a total collation). *)
Theorem own_proposal_is_not_added_again
    (localeCompare : string → string → Z) (uid : string)
    (data : MatchRow.t) (rowOld : option MatchRow.t) (st : PageState) :
  (∀ a b, localeCompare a b ≤ 0 ∨ localeCompare b a ≤ 0) →
  let st' := handleProposeMatch_inserted localeCompare data st in
  matches (matches_onChange localeCompare uid
             (mkPayload INSERT (Some data) rowOld) st')
  = matches st'.
Proof.
  intros Htot st'.
  destruct (matches_onChange_cases localeCompare uid
              (mkPayload INSERT (Some data) rowOld) st') as [->| ->]; [done|].
  simpl. unfold matches_updater. simpl.
  assert (Hin : existsb (λ m, strict_eq (MatchRow.id m) (MatchRow.id data))
                  (Array_sort (by_start_at localeCompare) (matches st ++ [data]))
                = true).
  { apply existsb_strict_eq. rewrite Array_sort_perm, fmap_app.
    apply elem_of_app. right. by apply list_elem_of_singleton. }
  rewrite Hin. apply Array_sort_id.
  by apply Array_sort_sorted, by_start_at_total.
Qed.

Lemma own_proposal_witness :
  matches (matches_onChange codeUnitCompare "carol"
             (mkPayload INSERT (Some m6) None)
             (handleProposeMatch_inserted codeUnitCompare m6 page0))
  = [m6].
Proof.
  rewrite (own_proposal_is_not_added_again codeUnitCompare "carol" m6 None
             page0 codeUnitCompare_total).
  vm_compute. reflexivity.
Defined.

(** X9: a pushed update never changes how many matches are listed nor which
    ids; and an update for an id that is not in a sorted list leaves the
    list exactly as it was: nothing is inserted. *)
Theorem pushed_update_inserts_nothing
    (localeCompare : string → string → Z)
    (rowNew : MatchRow.t) (rowOld : option MatchRow.t)
    (prev : list MatchRow.t) :
  let next := matches_updater localeCompare
                (mkPayload UPDATE (Some rowNew) rowOld) prev in
  length next = length prev
  ∧ MatchRow.id <$> next ≡ₚ MatchRow.id <$> prev
  ∧ (MatchRow.id rowNew ∉ MatchRow.id <$> prev →
     sorted_by (by_start_at localeCompare) prev → next = prev).
Proof.
  simpl. unfold matches_updater. simpl. split; [|split].
  - rewrite Array_sort_perm. unfold replace_by_id. by rewrite length_fmap.
  - rewrite Array_sort_perm. by rewrite replace_by_id_ids.
  - intros Hnew Hs. rewrite replace_by_id_fixed; [by apply Array_sort_id|].
    intros m Hm Hid. destruct Hnew. rewrite <- Hid.
    apply list_elem_of_fmap. by exists m.
Qed.

Lemma pushed_update_witness :
  matches_updater codeUnitCompare (mkPayload UPDATE (Some m9) None) [m6; m5]
  = [m6; m5].
Proof.
  destruct (pushed_update_inserts_nothing codeUnitCompare m9 None [m6; m5])
    as (_ & _ & Hsame).
  apply Hsame; [|show_sorted].
  apply (bool_decide_unpack _). vm_compute. exact I.
Defined.

(** ** Answering a proposal, continued *)

Lemma sorted_by_start_at_keys (localeCompare : string → string → Z)
    (l l' : list MatchRow.t) :
  MatchRow.start_at <$> l' = MatchRow.start_at <$> l →
  sorted_by (by_start_at localeCompare) l →
  sorted_by (by_start_at localeCompare) l'.
Proof.
  unfold sorted_by. revert l'.
  induction l as [|a l IH]; intros [|a' l'] Hkeys Hs; simplify_eq/=;
    [constructor|].
  apply Sorted_inv in Hs as [Hs Hhd]. constructor; [by apply IH|].
  destruct l as [|b l], l' as [|b' l']; simplify_eq/=; [constructor|].
  apply HdRel_inv in Hhd. constructor. unfold by_start_at in *. congruence.
Qed.

(** X4: an answer replaces the answered match in place: after a successful
    status update the list has the same length and the same ids in the
    same positions, every row with another id is untouched, and when the
    returned row starts when the answered one did, a sorted list stays
    sorted. A failed update leaves the list as it was. Either way exactly
    the one update request went out. *)
Theorem an_answer_replaces_the_match_in_place
    (localeCompare : string → string → Z) (k : Z) (status : string)
    (reply : Reply MatchRow.t) (st : PageState) (me : string) :
  user st = Some me →
  let out := handleMatchStatus (Some k) status reply st in
  snd out = [update_match_status k status]
  ∧ length (matches (fst out)) = length (matches st)
  ∧ (∀ i m, matches st !! i = Some m → MatchRow.id m ≠ Some k →
       matches (fst out) !! i = Some m)
  ∧ (∀ e, error reply = Some e → matches (fst out) = matches st)
  ∧ (∀ row, error reply = None → data reply = Some row →
       MatchRow.id row = Some k →
       MatchRow.id <$> matches (fst out) = MatchRow.id <$> matches st
       ∧ ((∀ m, m ∈ matches st → MatchRow.id m = Some k →
             MatchRow.start_at m = MatchRow.start_at row) →
          sorted_by (by_start_at localeCompare) (matches st) →
          sorted_by (by_start_at localeCompare) (matches (fst out)))).
Proof.
  intros Hu. unfold handleMatchStatus. rewrite Hu. simpl.
  split; [done|].
  destruct (error reply) as [e|]; simpl.
  { repeat split; try done. }
  destruct (data reply) as [row|]; simpl.
  2: { repeat split; try done. }
  split; [by unfold replace_by_id; rewrite length_fmap|]. split.
  - intros i m Hm Hid. unfold replace_by_id. rewrite list_lookup_fmap, Hm.
    simpl. unfold strict_eq. by rewrite bool_decide_eq_false_2.
  - split; [done|]. intros row' _ [= <-] Hid. split.
    + rewrite <- Hid. apply replace_by_id_ids.
    + intros Hkey Hs.
      apply (sorted_by_start_at_keys localeCompare (matches st)); [|done].
      unfold replace_by_id. rewrite <- list_fmap_compose.
      apply list_fmap_ext. intros i m Hm%list_elem_of_lookup_2. simpl.
      unfold strict_eq. case_bool_decide; [|done]. symmetry. by apply Hkey.
Qed.

Lemma an_answer_witness :
  matches (fst (handleMatchStatus (Some 5) "confirmed"
                  (mkReply (Some m5_confirmed) None)
                  (setMatches (λ _, [m6; m5]) page_bob)))
  = [m6; m5_confirmed]
  ∧ sorted_by (by_start_at codeUnitCompare)
      (matches (fst (handleMatchStatus (Some 5) "confirmed"
                       (mkReply (Some m5_confirmed) None)
                       (setMatches (λ _, [m6; m5]) page_bob)))).
Proof.
  split; [vm_compute; reflexivity|].
  destruct (an_answer_replaces_the_match_in_place codeUnitCompare 5 "confirmed"
              (mkReply (Some m5_confirmed) None)
              (setMatches (λ _, [m6; m5]) page_bob) "bob" eq_refl)
    as (_ & _ & _ & _ & Hok).
  destruct (Hok m5_confirmed) as [_ Hsorted]; [reflexivity..|].
  apply Hsorted; [|show_sorted].
  intros m Hm Hid. simpl in Hm.
  apply elem_of_cons in Hm as [->|Hm]; [discriminate Hid|].
  apply list_elem_of_singleton in Hm as ->. reflexivity.
Defined.

(** X2: a match is answered once: after the receiver's answer came back with a
    row that is no longer pending, a click on either answer button of that
    match sends nothing and changes nothing. *)
Theorem an_answered_match_cannot_be_answered_again
    (m row : MatchRow.t) (next : Answer) (reply : Reply MatchRow.t)
    (st : PageState) :
  canRespond st m = true →
  error reply = None → data reply = Some row →
  MatchRow.status row ≠ Some "pending" →
  let st' := fst (respondMatch m next reply st) in
  ∀ m', m' ∈ matches st' → MatchRow.id m' = MatchRow.id m →
    ∀ next' reply', respond_click m' next' reply' st' = (st', []).
Proof.
  intros Hcan Herr Hdata Hstatus st' m' Hm' Hid next' reply'.
  unfold respond_click.
  destruct (MatchRow.id m') as [k|] eqn:Hk.
  2: { rewrite (bool_decide_eq_false_2 (is_Some None)) by (by intros [??]).
       by rewrite andb_false_r. }
  assert (Hrow : m' = row).
  { subst st'. unfold respondMatch in Hm'. rewrite Hcan in Hm'.
    unfold handleMatchStatus in Hm'.
    unfold canRespond, isReceiver in Hcan.
    destruct (user st) as [me|]; [|done].
    rewrite <- Hid, Herr, Hdata in Hm'. simpl in Hm'.
    unfold replace_by_id in Hm'.
    apply list_elem_of_fmap in Hm' as (m0 & Hm0 & _). unfold strict_eq in Hm0.
    case_bool_decide as Hm0k; [done|]. subst m'. congruence. }
  subst m'. unfold canRespond at 1.
  rewrite (bool_decide_eq_false_2 (MatchRow.status row = _)) by done.
  by rewrite andb_false_r.
Qed.

Lemma an_answered_match_witness :
  let st' := fst (respondMatch m5 confirmed
                    (mkReply (Some m5_confirmed) None) page_bob) in
  matches st' = [m5_confirmed]
  ∧ respond_click m5_confirmed cancelled (mkReply None None) st' = (st', []).
Proof.
  split; [vm_compute; reflexivity|].
  apply (an_answered_match_cannot_be_answered_again m5 m5_confirmed confirmed
           (mkReply (Some m5_confirmed) None) page_bob);
    try reflexivity; [discriminate|vm_compute; left].
Defined.

(** X3: the page with [respondMatch] is the earlier page restricted to the
    receiver: on a match the signed-in user may answer, a click on an
    answer button does exactly what it did in the earlier page; on any
    other match it does nothing. *)
Theorem respond_click_restricts_the_earlier_page
    (m : MatchRow.t) (next : Answer) (reply : Reply MatchRow.t)
    (st : PageState) :
  (canRespond st m = true →
   respond_click m next reply st = EarlierPage.respond_click m next reply st)
  ∧ (canRespond st m = false → respond_click m next reply st = (st, [])).
Proof.
  unfold respond_click, EarlierPage.respond_click, respondMatch. split.
  - intros Hcan. rewrite Hcan. simpl.
    unfold canRespond in Hcan. apply andb_true_iff in Hcan as [_ Hp].
    by rewrite Hp.
  - by intros ->.
Qed.

Lemma respond_click_restricts_witness :
  respond_click m5 confirmed (mkReply (Some m5_confirmed) None) page_bob
  = EarlierPage.respond_click m5 confirmed
      (mkReply (Some m5_confirmed) None) page_bob
  ∧ respond_click m5 confirmed (mkReply (Some m5_confirmed) None) page_m5
    = (page_m5, []).
Proof.
  destruct (respond_click_restricts_the_earlier_page m5 confirmed
              (mkReply (Some m5_confirmed) None) page_bob) as [Hsame _].
  destruct (respond_click_restricts_the_earlier_page m5 confirmed
              (mkReply (Some m5_confirmed) None) page_m5) as [_ Hnone].
  split; [by apply Hsame|by apply Hnone].
Defined.

(** ** Proposing a match, in full *)

Lemma invalidRange_false (getTime : string → option Z)
    (startText endText : string) (s e : Z) :
  getTime startText = Some s → getTime endText = Some e →
  startText ≠ "" → endText ≠ "" →
  invalidRange getTime startText endText = false → s < e.
Proof.
  intros Hs He Hns Hne. unfold invalidRange.
  rewrite !bool_decide_eq_false_2 by done. simpl. rewrite Hs, He. simpl.
  intros H%bool_decide_eq_false. lia.
Qed.

(** X10: a proposal is only ever created pending and in the signed-in user's
    name: the one insert [handleProposeMatch] sends has the user as
    [user_a], the chosen candidate as [user_b], status [pending], and the
    ISO texts of two filled-in, parsable times. Sent through the 提案
    button, the start is moreover strictly before the end and the page was
    not busy. *)
Theorem a_proposal_is_pending_and_in_the_users_name
    (localeCompare : string → string → Z) (getTime : string → option Z)
    (isoOf : Z → string)
    (toUserId proposalStart proposalEnd proposalVenue : string)
    (reply : Reply MatchRow.t) (st : PageState) (p : MatchInsert.t) :
  (insert_match p
     ∈ snd (handleProposeMatch localeCompare getTime isoOf toUserId
              proposalStart proposalEnd proposalVenue reply st) →
   ∃ s e,
     user st = Some (MatchInsert.user_a p)
     ∧ MatchInsert.user_b p = toUserId
     ∧ MatchInsert.status p = "pending"
     ∧ proposalStart ≠ "" ∧ proposalEnd ≠ ""
     ∧ getTime proposalStart = Some s ∧ getTime proposalEnd = Some e
     ∧ MatchInsert.start_at p = isoOf s ∧ MatchInsert.end_at p = isoOf e
     ∧ MatchInsert.venue_text p = or_null proposalVenue)
  ∧ (insert_match p
       ∈ snd (propose_click localeCompare getTime isoOf toUserId
                proposalStart proposalEnd proposalVenue reply st) →
     busy st = false
     ∧ ∃ s e, getTime proposalStart = Some s ∧ getTime proposalEnd = Some e
              ∧ s < e).
Proof.
  assert (Hsent :
    insert_match p
      ∈ snd (handleProposeMatch localeCompare getTime isoOf toUserId
               proposalStart proposalEnd proposalVenue reply st) →
    ∃ s e,
      user st = Some (MatchInsert.user_a p)
      ∧ MatchInsert.user_b p = toUserId
      ∧ MatchInsert.status p = "pending"
      ∧ proposalStart ≠ "" ∧ proposalEnd ≠ ""
      ∧ getTime proposalStart = Some s ∧ getTime proposalEnd = Some e
      ∧ MatchInsert.start_at p = isoOf s ∧ MatchInsert.end_at p = isoOf e
      ∧ MatchInsert.venue_text p = or_null proposalVenue).
  { unfold handleProposeMatch, Date_toISOString.
    destruct (user st) as [uid|]; [|by intros ?%elem_of_nil].
    case_bool_decide as Hs.
    { simpl. intros [[=]|[[=]|?%elem_of_nil]%elem_of_cons]%elem_of_cons. done. }
    case_bool_decide as He.
    { simpl. intros [[=]|[[=]|?%elem_of_nil]%elem_of_cons]%elem_of_cons. done. }
    destruct (getTime proposalStart) as [s|]; simpl;
      [|by intros ?%elem_of_nil].
    destruct (getTime proposalEnd) as [e|]; simpl;
      [|by intros ?%elem_of_nil].
    intros Hin%list_elem_of_singleton. simplify_eq.
    exists s, e. done. }
  split; [exact Hsent|].
  unfold propose_click. destruct (busy st) eqn:Hbusy; simpl;
    [by intros ?%elem_of_nil|].
  case_bool_decide as Hs; simpl; [by intros ?%elem_of_nil|].
  case_bool_decide as He; simpl; [by intros ?%elem_of_nil|].
  destruct (invalidRange getTime proposalStart proposalEnd) eqn:Hinv;
    [by intros ?%elem_of_nil|].
  intros (s & e & _ & _ & _ & _ & _ & Hts & Hte & _)%Hsent.
  split; [done|]. exists s, e. split; [done|]. split; [done|].
  by apply (invalidRange_false getTime proposalStart proposalEnd).
Qed.

Lemma a_proposal_witness :
  let p := MatchInsert.mk "alice" "bob" "1000" "2000" None "pending" in
  snd (propose_click codeUnitCompare millis isoOf_millis "bob" "1000" "2000" ""
         (mkReply (Some m5) None) page0)
  = [insert_match p]
  ∧ ∃ s e, millis "1000" = Some s ∧ millis "2000" = Some e ∧ s < e.
Proof.
  assert (Hin :
    insert_match (MatchInsert.mk "alice" "bob" "1000" "2000" None "pending")
      ∈ snd (propose_click codeUnitCompare millis isoOf_millis "bob" "1000"
               "2000" "" (mkReply (Some m5) None) page0))
    by (vm_compute; left).
  split; [vm_compute; reflexivity|].
  destruct (a_proposal_is_pending_and_in_the_users_name codeUnitCompare millis
              isoOf_millis "bob" "1000" "2000" "" (mkReply (Some m5) None)
              page0 (MatchInsert.mk "alice" "bob" "1000" "2000" None "pending"))
    as [_ Hclick].
  destruct (Hclick Hin) as [_ Hrange]. exact Hrange.
Defined.

(** X11: what a proposal does to the list. When a user is signed in and both
    times are filled in and parsable: a returned row is appended and the
    list re-sorted, so the new list is sorted (total collation) and holds
    the old rows and the new one; a failed insert leaves the list as it
    was and reports the error. When a time cannot be parsed, nothing is
    sent and the list is as it was. *)
Theorem a_proposal_is_appended_in_order
    (localeCompare : string → string → Z) (getTime : string → option Z)
    (isoOf : Z → string)
    (toUserId proposalStart proposalEnd proposalVenue : string)
    (reply : Reply MatchRow.t) (st : PageState) (me : string) :
  user st = Some me → proposalStart ≠ "" → proposalEnd ≠ "" →
  let out := handleProposeMatch localeCompare getTime isoOf toUserId
               proposalStart proposalEnd proposalVenue reply st in
  (∀ s e row, getTime proposalStart = Some s → getTime proposalEnd = Some e →
     error reply = None → data reply = Some row →
     fst out = handleProposeMatch_inserted localeCompare row st
     ∧ matches (fst out) ≡ₚ matches st ++ [row]
     ∧ ((∀ a b, localeCompare a b ≤ 0 ∨ localeCompare b a ≤ 0) →
        sorted_by (by_start_at localeCompare) (matches (fst out))))
  ∧ (∀ err, error reply = Some err →
       matches (fst out) = matches st ∧ busy (fst out) = false
       ∧ ∃ text, msg (fst out) = Some text)
  ∧ (getTime proposalStart = None ∨ getTime proposalEnd = None →
     snd out = [] ∧ matches (fst out) = matches st
     ∧ msg (fst out) = Some ("提案の作成に失敗: " +:+ RangeError_message)).
Proof.
  intros Hu Hs He. unfold handleProposeMatch, Date_toISOString.
  rewrite Hu. rewrite !bool_decide_eq_false_2 by done. simpl.
  split; [|split].
  - intros s e row -> -> -> ->. simpl. split; [done|]. split.
    + apply Array_sort_perm.
    + intros Htot. by apply Array_sort_sorted, by_start_at_total.
  - intros err ->.
    destruct (getTime proposalStart), (getTime proposalEnd); simpl; eauto.
  - intros [-> | ->]; simpl; [done|].
    by destruct (getTime proposalStart).
Qed.

Lemma a_proposal_appended_witness :
  matches (fst (handleProposeMatch codeUnitCompare millis isoOf_millis "bob"
                  "1000" "2000" "" (mkReply (Some m5) None)
                  (setMatches (λ _, [m6]) page0)))
  = [m6; m5].
Proof.
  destruct (a_proposal_is_appended_in_order codeUnitCompare millis isoOf_millis
              "bob" "1000" "2000" "" (mkReply (Some m5) None)
              (setMatches (λ _, [m6]) page0) "alice")
    as [Hok _]; [reflexivity|discriminate|discriminate|].
  destruct (Hok 1000 2000 m5) as [-> _]; try reflexivity.
Defined.

(** ** The user's own availability *)

Lemma pastAvailStart_false (getTime : string → option Z) (memoNow : Z)
    (startText : string) (s : Z) :
  getTime startText = Some s → startText ≠ "" →
  pastAvailStart getTime memoNow startText = false → memoNow ≤ s.
Proof.
  intros Hs Hne. unfold pastAvailStart.
  rewrite bool_decide_eq_false_2 by done. rewrite Hs. simpl.
  intros H%bool_decide_eq_false. lia.
Qed.

(** X23: a slot is inserted only for a complete, parsable range that runs
    forward and did not start in the past when its start was entered: the
    one insert [handleAddSlot] sends is for the signed-in user, with start,
    end and area filled in, both times parsable, the start strictly before
    the end and not before [memoNow], the clock reading taken when the
    start field was last changed, and it carries the ISO texts of those
    times. The clock at the time of the click is not consulted: the
    outcome is a function of [memoNow] and the form alone. An unparsable
    time passes both range checks and still sends nothing. *)
Theorem a_slot_is_inserted_only_for_a_forward_range_not_past_when_entered
    (localeCompare : string → string → Z) (getTime : string → option Z)
    (isoOf : Z → string) (memoNow : Z) (reply : Reply AvailabilitySlot.t)
    (st : PageState) (panel : SlotsPanel) :
  (∀ p, insert_slot p
          ∈ snd (handleAddSlot localeCompare getTime isoOf memoNow reply st panel) →
     ∃ s e,
       user st = Some (SlotInsert.user_id p)
       ∧ startAt panel ≠ "" ∧ endAt panel ≠ "" ∧ slotArea panel ≠ ""
       ∧ getTime (startAt panel) = Some s ∧ getTime (endAt panel) = Some e
       ∧ s < e ∧ memoNow ≤ s
       ∧ p = SlotInsert.mk (SlotInsert.user_id p) (isoOf s) (isoOf e)
               (slotArea panel) (or_null (venueHint panel))
               (isRecurring panel))
  ∧ (getTime (startAt panel) = None ∨ getTime (endAt panel) = None →
     invalidRange getTime (startAt panel) (endAt panel) = false
     ∧ snd (handleAddSlot localeCompare getTime isoOf memoNow reply st panel) = []
     ∧ (handleAddSlot localeCompare getTime isoOf memoNow reply st panel).1.2
       = panel)
  ∧ (getTime (startAt panel) = None →
     pastAvailStart getTime memoNow (startAt panel) = false).
Proof.
  split.
  - intros p. unfold handleAddSlot, Date_toISOString.
    destruct (user st) as [uid|]; [|by intros ?%elem_of_nil].
    destruct (bool_decide (startAt panel = "")) eqn:Hs; simpl;
      [by intros ?%elem_of_nil|].
    destruct (bool_decide (endAt panel = "")) eqn:He; simpl;
      [by intros ?%elem_of_nil|].
    destruct (bool_decide (slotArea panel = "")) eqn:Ha; simpl;
      [by intros ?%elem_of_nil|].
    apply bool_decide_eq_false in Hs, He, Ha.
    destruct (invalidRange getTime (startAt panel) (endAt panel)) eqn:Hinv;
      [by intros ?%elem_of_nil|].
    destruct (pastAvailStart getTime memoNow (startAt panel)) eqn:Hpast;
      [by intros ?%elem_of_nil|].
    destruct (getTime (startAt panel)) as [s|] eqn:Hts; simpl;
      [|by intros ?%elem_of_nil].
    destruct (getTime (endAt panel)) as [e|] eqn:Hte; simpl;
      [|by intros ?%elem_of_nil].
    intros Hin. exists s, e.
    assert (Hp : p = SlotInsert.mk uid (isoOf s) (isoOf e) (slotArea panel)
                       (or_null (venueHint panel)) (isRecurring panel)).
    { destruct (error reply); [|destruct (data reply)]; simpl in Hin;
        apply list_elem_of_singleton in Hin; by simplify_eq. }
    subst p. simpl. repeat split; try done.
    + by apply (invalidRange_false getTime (startAt panel) (endAt panel)).
    + by apply (pastAvailStart_false getTime memoNow (startAt panel)).
  - split.
    + intros Hnan.
      assert (Hinv : invalidRange getTime (startAt panel) (endAt panel) = false).
      { unfold invalidRange. destruct (_ || _); [done|].
        destruct Hnan as [-> | ->]; [done|].
        by destruct (getTime (startAt panel)). }
      split; [done|]. unfold handleAddSlot, Date_toISOString.
      destruct (user st) as [uid|]; [|done].
      destruct (_ || _ || _); [done|]. rewrite Hinv.
      destruct (pastAvailStart _ _ _); [done|].
      destruct Hnan as [-> | ->]; simpl; [done|].
      by destruct (getTime (startAt panel)).
    + intros Hs. unfold pastAvailStart. rewrite Hs. by case_bool_decide.
Qed.

Lemma a_slot_insert_witness :
  let p := SlotInsert.mk "alice" "2000" "2500" "13" None false in
  snd (handleAddSlot codeUnitCompare millis isoOf_millis 1500
         (mkReply (Some slot31) None) page0 panel_alice)
  = [insert_slot p]
  ∧ ∃ s e, millis "2000" = Some s ∧ millis "2500" = Some e ∧ s < e ∧ 1500 ≤ s.
Proof.
  assert (Hin :
    insert_slot (SlotInsert.mk "alice" "2000" "2500" "13" None false)
      ∈ snd (handleAddSlot codeUnitCompare millis isoOf_millis 1500
               (mkReply (Some slot31) None) page0 panel_alice))
    by (vm_compute; left).
  split; [vm_compute; reflexivity|].
  destruct (a_slot_is_inserted_only_for_a_forward_range_not_past_when_entered codeUnitCompare
              millis isoOf_millis 1500 (mkReply (Some slot31) None) page0
              panel_alice) as [Hsent _].
  destruct (Hsent _ Hin) as (s & e & _ & _ & _ & _ & Hs & He & Hlt & Hnow & _).
  by exists s, e.
Defined.

(** X24: after a slot was added the list is in order: a returned row is
    appended and the list re-sorted by [start_at], so the new list holds
    the old slots and the new one and is sorted (total collation), and the
    form is cleared. A failed insert leaves the list and the form as they
    were and reports the error. *)
Theorem an_added_slot_lands_in_order
    (localeCompare : string → string → Z) (getTime : string → option Z)
    (isoOf : Z → string) (now : Z) (reply : Reply AvailabilitySlot.t)
    (st : PageState) (panel : SlotsPanel) (p : SlotInsert.t) :
  insert_slot p
    ∈ snd (handleAddSlot localeCompare getTime isoOf now reply st panel) →
  let out := handleAddSlot localeCompare getTime isoOf now reply st panel in
  (∀ row, error reply = None → data reply = Some row →
     slots out.1.2 ≡ₚ slots panel ++ [row]
     ∧ ((∀ a b, localeCompare a b ≤ 0 ∨ localeCompare b a ≤ 0) →
        sorted_by (by_slot_start_at localeCompare) (slots out.1.2))
     ∧ out.1.2
       = mkSlots (Array_sort (by_slot_start_at localeCompare)
                    (slots panel ++ [row])) "" "" "" "" false)
  ∧ (∀ e, error reply = Some e →
       out.1.2 = panel
       ∧ msg out.1.1 = Some ("空き時間の追加に失敗: " +:+ e)).
Proof.
  unfold handleAddSlot.
  destruct (user st) as [uid|]; [|by intros ?%elem_of_nil].
  destruct (_ || _ || _); [by intros ?%elem_of_nil|].
  destruct (invalidRange _ _ _); [by intros ?%elem_of_nil|].
  destruct (pastAvailStart _ _ _); [by intros ?%elem_of_nil|].
  destruct (Date_toISOString getTime isoOf (startAt panel)) as [startIso|];
    [|by intros ?%elem_of_nil].
  destruct (Date_toISOString getTime isoOf (endAt panel)) as [endIso|];
    [|by intros ?%elem_of_nil].
  intros _. simpl. split.
  - intros row -> ->. simpl. split; [apply Array_sort_perm|]. split; [|done].
    intros Htot. apply Array_sort_sorted. intros a b. apply Htot.
  - by intros e ->.
Qed.

Lemma an_added_slot_witness :
  slots (handleAddSlot codeUnitCompare millis isoOf_millis 1500
           (mkReply (Some slot31) None) page0 panel_alice).1.2
  = [slot31; slot30].
Proof.
  assert (Hin :
    insert_slot (SlotInsert.mk "alice" "2000" "2500" "13" None false)
      ∈ snd (handleAddSlot codeUnitCompare millis isoOf_millis 1500
               (mkReply (Some slot31) None) page0 panel_alice))
    by (vm_compute; left).
  destruct (an_added_slot_lands_in_order codeUnitCompare millis isoOf_millis
              1500 (mkReply (Some slot31) None) page0 panel_alice _ Hin)
    as [Hok _].
  destruct (Hok slot31) as (_ & _ & ->); reflexivity.
Defined.

(** X25: deleting a slot removes exactly that slot: after a successful delete
    no slot with the deleted id is listed, every other slot is still
    listed in its prior order, and a sorted list stays sorted (transitive
    collation); the request names the slot and the signed-in user. A
    failed delete leaves the list as it was. *)
Theorem a_deleted_slot_is_gone
    (localeCompare : string → string → Z) (k : Z) (reply : Reply unit)
    (st : PageState) (panel : SlotsPanel) (me : string) :
  user st = Some me →
  let out := handleDeleteSlot (Some k) reply st panel in
  snd out = [delete_slot k me]
  ∧ (error reply = None →
       slots out.1.2
       = filter (λ s, AvailabilitySlot.id s ≠ Some k) (slots panel)
       ∧ (∀ s, s ∈ slots out.1.2 ↔
               s ∈ slots panel ∧ AvailabilitySlot.id s ≠ Some k)
       ∧ slots out.1.2 `sublist_of` slots panel
       ∧ ((∀ a b c, localeCompare a b ≤ 0 → localeCompare b c ≤ 0 →
                    localeCompare a c ≤ 0) →
          sorted_by (by_slot_start_at localeCompare) (slots panel) →
          sorted_by (by_slot_start_at localeCompare) (slots out.1.2)))
  ∧ (∀ e, error reply = Some e → out.1.2 = panel).
Proof.
  intros Hu. unfold handleDeleteSlot. rewrite Hu. simpl.
  destruct (error reply) as [e|]; simpl.
  - split; [done|]. split; [done|]. by intros ? _.
  - split; [done|]. split; [|done]. intros _. split; [done|]. split.
    + intros s. rewrite list_elem_of_filter. tauto.
    + split; [apply sublist_filter|]. intros Htr Hs.
      apply sorted_by_filter; [|done]. intros a b c. apply Htr.
Qed.

Lemma a_deleted_slot_witness :
  slots (handleDeleteSlot (Some 30) (mkReply None None) page0
           (mkSlots [slot31; slot30] "" "" "" "" false)).1.2
  = [slot31].
Proof.
  destruct (a_deleted_slot_is_gone codeUnitCompare 30 (mkReply None None) page0
              (mkSlots [slot31; slot30] "" "" "" "" false) "alice" eq_refl)
    as (_ & Hok & _).
  destruct (Hok eq_refl) as [-> _]. reflexivity.
Defined.

(** ** Candidates for a proposal *)

Lemma prefix_app (sub s : string) :
  String.prefix sub s = true ↔ ∃ post, s = sub +:+ post.
Proof.
  revert s. induction sub as [|a sub IH]; intros s.
  - split; [by exists s|]. intros _. by destruct s.
  - destruct s as [|b s]; simpl.
    + split; [done|]. by intros (post & [=]).
    + destruct (Ascii.ascii_dec a b) as [->|Hne].
      * rewrite IH. split; intros (post & Hpost); exists post.
        -- by rewrite Hpost.
        -- by injection Hpost.
      * split; [done|]. intros (post & [= ? ?]). congruence.
Qed.

(** [includes] finds exactly the texts that occur somewhere in the
    string. *)
Lemma String_includes_spec (s sub : string) :
  String_includes s sub = true ↔ ∃ pre post, s = pre +:+ sub +:+ post.
Proof.
  induction s as [|a s IH].
  - cbn [String_includes]. rewrite orb_false_r, prefix_app. split.
    + intros (post & ->). by exists "", post.
    + intros ([|b pre] & post & Hs); [by exists post|done].
  - cbn [String_includes]. rewrite orb_true_iff, prefix_app, IH. split.
    + intros [(post & ->)|(pre & post & ->)].
      * by exists "", post.
      * by exists (String a pre), post.
    + intros ([|b pre] & post & Hs).
      * left. by exists post.
      * right. injection Hs as -> ->. by exists pre, post.
Qed.

(** X18: the filter box keeps exactly the candidates whose nickname or area
    code contains the typed text (a missing column counting as empty), in
    their original order; the empty text keeps everyone, as containment of
    the empty text would. *)
Theorem the_filter_keeps_matching_candidates
    (allUsers : list ProfileRow.t) (userFilter : string) :
  filteredUsers allUsers userFilter `sublist_of` allUsers
  ∧ (∀ u, u ∈ filteredUsers allUsers userFilter ↔
          u ∈ allUsers
          ∧ ((∃ pre post,
                or_empty (ProfileRow.nickname u) = pre +:+ userFilter +:+ post)
             ∨ (∃ pre post,
                  or_empty (ProfileRow.area_code u)
                  = pre +:+ userFilter +:+ post)))
  ∧ filteredUsers allUsers "" = allUsers.
Proof.
  unfold filteredUsers. split; [|split; [|done]].
  - case_bool_decide; [done|]. apply sublist_filter.
  - intros u. case_bool_decide as Hf.
    + subst userFilter. split; [|by intros [? _]].
      intros Hu. split; [done|]. left.
      by exists "", (or_empty (ProfileRow.nickname u)).
    + rewrite list_elem_of_filter, orb_true_iff, !String_includes_spec. tauto.
Qed.

Lemma number_lt_NaN_r (x : option Z) : number_lt x None = false.
Proof. by destruct x. Qed.

Lemma overlaps_proposal_slot (getTime : string → option Z)
    (map : gmap string (option PublicSlot.t))
    (proposalStart proposalEnd uid : string) :
  overlaps_proposal getTime map proposalStart proposalEnd uid = true →
  ∃ ns, map !! uid = Some (Some ns)
        ∧ hasOverlap getTime proposalStart proposalEnd
            (PublicSlot.start_at ns) (PublicSlot.end_at ns) = true.
Proof.
  unfold overlaps_proposal, lookup_nextSlot.
  destruct (map !! uid) as [[ns|]|]; [eauto|done|].
  case_bool_decide; [|done]. by rewrite number_lt_NaN_r.
Qed.

(** X19: with "overlap only" switched on and both proposal times filled in, the
    candidates shown are exactly the filtered candidates whose own next
    slot overlaps the proposed range, in their order, and each of them
    carries the overlap mark in its row; otherwise the filtered candidates
    are shown as they are. *)
Theorem shown_candidates_overlap_the_proposal
    (getTime : string → option Z) (showOverlapOnly : bool)
    (filtered : list ProfileRow.t) (map : gmap string (option PublicSlot.t))
    (proposalStart proposalEnd : string) :
  let shown := displayUsers getTime showOverlapOnly filtered map
                 proposalStart proposalEnd in
  shown `sublist_of` filtered
  ∧ (showOverlapOnly = false ∨ proposalStart = "" ∨ proposalEnd = "" →
     shown = filtered)
  ∧ (showOverlapOnly = true → proposalStart ≠ "" → proposalEnd ≠ "" →
     ∀ u, u ∈ shown ↔
          u ∈ filtered
          ∧ ∃ ns, map !! ProfileRow.user_id u = Some (Some ns)
                  ∧ hasOverlap getTime proposalStart proposalEnd
                      (PublicSlot.start_at ns) (PublicSlot.end_at ns) = true)
  ∧ (showOverlapOnly = true → proposalStart ≠ "" → proposalEnd ≠ "" →
     ∀ u, u ∈ shown →
          row_overlap getTime map proposalStart proposalEnd u = true).
Proof.
  unfold displayUsers. simpl. split; [|split; [|split]].
  - destruct showOverlapOnly; simpl; [|done].
    destruct (_ || _); [done|]. apply sublist_filter.
  - intros [->|[->| ->]]; [done|..].
    + by destruct showOverlapOnly.
    + destruct showOverlapOnly; simpl; [|done]. by rewrite orb_true_r.
  - intros -> Hs He u. simpl. rewrite !bool_decide_eq_false_2 by done. simpl.
    rewrite list_elem_of_filter. split.
    + intros [Hov Hu]. split; [done|]. by apply overlaps_proposal_slot in Hov.
    + intros [Hu (ns & Hns & Hov)]. split; [|done].
      unfold overlaps_proposal, lookup_nextSlot. by rewrite Hns.
  - intros -> Hs He u. simpl. rewrite !bool_decide_eq_false_2 by done. simpl.
    intros [Hov _]%list_elem_of_filter. unfold row_overlap.
    by rewrite !bool_decide_eq_false_2, Hov by done.
Qed.

Lemma shown_candidates_witness :
  displayUsers millis true [bob_profile; carol_profile] next_map "1000" "2000"
  = [bob_profile]
  ∧ row_overlap millis next_map "1000" "2000" bob_profile = true.
Proof.
  destruct (shown_candidates_overlap_the_proposal millis true
              [bob_profile; carol_profile] next_map "1000" "2000")
    as (_ & _ & _ & Hmark).
  assert (Hshown : displayUsers millis true [bob_profile; carol_profile]
                     next_map "1000" "2000" = [bob_profile])
    by (vm_compute; reflexivity).
  split; [exact Hshown|].
  apply Hmark; [reflexivity|discriminate|discriminate|].
  rewrite Hshown. left.
Defined.

(** X20: when the "no next slots" notice is up (nothing is loading, there are
    candidates, and none of them has a next slot), switching "overlap
    only" on with a proposed range hides every candidate. *)
Theorem no_next_slots_means_nobody_overlaps
    (getTime : string → option Z) (loading : bool)
    (filtered : list ProfileRow.t) (map : gmap string (option PublicSlot.t))
    (proposalStart proposalEnd : string) :
  noNextSlotsVisible loading filtered map = true →
  proposalStart ≠ "" → proposalEnd ≠ "" →
  loading = false ∧ filtered ≠ []
  ∧ displayUsers getTime true filtered map proposalStart proposalEnd = [].
Proof.
  unfold noNextSlotsVisible. intros Hno Hs He.
  destruct loading; [done|]. simpl in Hno.
  case_bool_decide as Hnil; [done|]. split; [done|]. split; [done|].
  unfold displayUsers. simpl. rewrite !bool_decide_eq_false_2 by done. simpl.
  rewrite forallb_forall in Hno.
  destruct (filter _ filtered) as [|u l] eqn:Hf; [done|].
  assert (Hu : u ∈ filter
            (λ u, overlaps_proposal getTime map proposalStart proposalEnd
                    (ProfileRow.user_id u) = true) filtered)
    by (rewrite Hf; by left).
  apply list_elem_of_filter in Hu as [Hov Hu].
  apply overlaps_proposal_slot in Hov as (ns & Hns & _).
  apply list_elem_of_In in Hu. specialize (Hno u Hu).
  unfold no_slot_at, lookup_nextSlot in Hno.
  by rewrite Hns in Hno.
Qed.

Lemma no_next_slots_witness :
  displayUsers millis true [carol_profile] next_map "1000" "2000" = [].
Proof.
  destruct (no_next_slots_means_nobody_overlaps millis false [carol_profile]
              next_map "1000" "2000") as (_ & _ & Hnone);
    [reflexivity|discriminate|discriminate|exact Hnone].
Defined.

(** ** Own writes and their echoes *)

(** X5: an answer that was applied locally is not applied twice: when the
    channel later pushes the update of the same row, a sorted list stays
    exactly as the answer left it. *)
Theorem own_answer_echo_changes_nothing
    (localeCompare : string → string → Z) (uid me : string) (k : Z)
    (status : string) (row : MatchRow.t) (rowOld : option MatchRow.t)
    (st : PageState) :
  user st = Some me → MatchRow.id row = Some k →
  let st' := fst (handleMatchStatus (Some k) status
                    (mkReply (Some row) None) st) in
  sorted_by (by_start_at localeCompare) (matches st') →
  matches (matches_onChange localeCompare uid
             (mkPayload UPDATE (Some row) rowOld) st')
  = matches st'.
Proof.
  intros Hu Hid st' Hs.
  destruct (matches_onChange_cases localeCompare uid
              (mkPayload UPDATE (Some row) rowOld) st') as [->| ->]; [done|].
  simpl. unfold matches_updater. simpl.
  rewrite replace_by_id_fixed; [by apply Array_sort_id|].
  intros m Hm Hmid. subst st'. unfold handleMatchStatus in Hm.
  rewrite Hu in Hm. simpl in Hm. unfold replace_by_id in Hm.
  apply list_elem_of_fmap in Hm as (m0 & -> & Hm0). unfold strict_eq in *.
  case_bool_decide; [done|]. congruence.
Qed.

Lemma own_answer_echo_witness :
  matches
    (matches_onChange codeUnitCompare "bob"
       (mkPayload UPDATE (Some m5_confirmed) (Some m5))
       (fst (handleMatchStatus (Some 5) "confirmed"
               (mkReply (Some m5_confirmed) None) page_bob)))
  = [m5_confirmed].
Proof.
  rewrite (own_answer_echo_changes_nothing codeUnitCompare "bob" "bob" 5
             "confirmed" m5_confirmed (Some m5) page_bob);
    [reflexivity|reflexivity|reflexivity|show_sorted].
Defined.

Lemma reply_first_witness :
  count_id 7
    (messages
       (chat_onInsert (mkPayload INSERT (Some msg7) None)
          (fst (handleSendMessage (mkReply (Some msg7) None) page0))))
  = 1%nat.
Proof.
  apply (reply_then_notification_once msg7 7 1
           (mkPayload INSERT (Some msg7) None) page0);
    [reflexivity|reflexivity|vm_compute; discriminate|reflexivity|reflexivity].
Defined.

Lemma handleSendMessage_unique_ids (reply : Reply MessageRow.t)
    (st : PageState) :
  (∀ row k, error reply = None → data reply = Some row →
            MessageRow.id row = Some k →
            String_of_number k ∉ messageIdsRef st) →
  ids_recorded st → unique_ids (messages st) →
  unique_ids (messages (fst (handleSendMessage reply st))).
Proof.
  intros Hfresh Hrec Hnd.
  destruct (handleSendMessage_messages reply st) as [->|(row & Hdata & Hm)];
    [done|].
  rewrite Hm. apply unique_ids_append; [done|].
  intros k Hid (m & Hmk & Hin)%list_elem_of_fmap.
  assert (Herr : error reply = None).
  { destruct (error reply) as [e|] eqn:He; [|done]. exfalso.
    unfold handleSendMessage in Hm.
    destruct (user st); [|by apply (f_equal length) in Hm;
                            rewrite length_app in Hm; simpl in Hm; lia].
    destruct (activeMatchId st); [|by apply (f_equal length) in Hm;
                            rewrite length_app in Hm; simpl in Hm; lia].
    destruct (negb _); [by apply (f_equal length) in Hm;
                            rewrite length_app in Hm; simpl in Hm; lia|].
    case_bool_decide; rewrite ?He in Hm; simpl in Hm;
      apply (f_equal length) in Hm; rewrite length_app in Hm; simpl in Hm; lia. }
  apply (Hfresh row k); try done. by apply (Hrec m).
Qed.

(** X14: no id is shown twice as long as every reply to an own send arrives
    before the notification of the same row, that is, for an id that is not
    yet in the seen-set: along any such run of fetches (without repeated
    ids), pushed inserts, own sends and sign-outs, the shown ids stay
    recorded and distinct. *)
Theorem ids_stay_distinct_while_replies_come_first
    (events : list ChatEvent) (st : PageState) :
  replies_are_fresh st events →
  ids_recorded st → unique_ids (messages st) →
  unique_ids (messages (foldl apply_chat_event st events)).
Proof.
  revert st. induction events as [|ev events IH]; intros st Hfresh Hrec Hnd;
    [done|].
  destruct Hfresh as [Hev Hrest]. simpl. apply IH; [done| |].
  { by apply apply_chat_event_ids_recorded. }
  destruct ev as [matchId reply|reply|payload|reply|]; simpl in *.
  - unfold fetchMessages. destruct (error reply); [done|].
    destruct (data reply) as [rows|]; [|done]. by apply Hev.
  - destruct (activeMatchId st); [|done].
    unfold fetchMessages. destruct (error reply); [done|].
    destruct (data reply) as [rows|]; [|done]. by apply Hev.
  - by apply chat_onInsert_unique_ids.
  - by apply handleSendMessage_unique_ids.
  - apply NoDup_nil_2.
Qed.

Lemma ids_stay_distinct_witness :
  unique_ids
    (messages
       (foldl apply_chat_event page0
          [ chat_sent (mkReply (Some msg7) None);
            chat_pushed (mkPayload INSERT (Some msg7) None);
            chat_pushed (mkPayload INSERT (Some msg8) None) ])).
Proof.
  apply ids_stay_distinct_while_replies_come_first;
    [|by intros m k ?%elem_of_nil|apply NoDup_nil_2].
  simpl. split; [|done]. intros row k _ [= <-] [= <-].
  apply not_elem_of_empty.
Defined.

(** ** Next free slot per user, continued *)

Lemma nextSlot_step_sound (rows : list SlotRow.t)
    (map : gmap string (option PublicSlot.t)) (row : SlotRow.t) :
  (∀ uid s, map !! uid = Some (Some s) →
     ∃ r, r ∈ rows ∧ SlotRow.user_id r = Some uid ∧ s = toPublicSlot uid r) →
  row ∈ rows →
  ∀ uid s, nextSlot_step map row !! uid = Some (Some s) →
    ∃ r, r ∈ rows ∧ SlotRow.user_id r = Some uid ∧ s = toPublicSlot uid r.
Proof.
  intros Hmap Hrow uid s. unfold nextSlot_step.
  destruct (SlotRow.user_id row) as [u|] eqn:Hu; [|apply Hmap].
  destruct (truthy (Some u)); [|apply Hmap].
  destruct (nullish_at map u); [|apply Hmap].
  destruct (decide (u = uid)) as [->|Hne].
  - rewrite lookup_insert_eq. intros [= <-]. by exists row.
  - rewrite lookup_insert_ne by done. apply Hmap.
Qed.

Lemma initial_map_no_slot (userIds : list string) (uid : string)
    (s : PublicSlot.t) :
  (list_to_map ((λ id, (id, None)) <$> userIds)
     : gmap string (option PublicSlot.t)) !! uid ≠ Some (Some s).
Proof.
  induction userIds as [|id userIds IH]; simpl; [by rewrite lookup_empty|].
  destruct (decide (id = uid)) as [->|Hne].
  - by rewrite lookup_insert_eq.
  - by rewrite lookup_insert_ne.
Qed.

(** X17: every user the map was asked about has a binding, and nobody is ever
    filed under someone else's slot: a slot bound to a user id is one of
    the fetched rows of exactly that user, with its times, area and venue
    hint unchanged. *)
Theorem each_next_slot_is_a_row_of_its_user
    (userIds : list string) (rows : list SlotRow.t) :
  (∀ uid, uid ∈ userIds → is_Some (nextSlots userIds rows !! uid))
  ∧ (∀ uid s, nextSlots userIds rows !! uid = Some (Some s) →
       ∃ r, r ∈ rows ∧ SlotRow.user_id r = Some uid
            ∧ PublicSlot.user_id s = uid
            ∧ PublicSlot.start_at s = SlotRow.start_at r
            ∧ PublicSlot.end_at s = SlotRow.end_at r
            ∧ PublicSlot.area_code s = SlotRow.area_code r
            ∧ PublicSlot.venue_hint s = SlotRow.venue_hint r).
Proof.
  split.
  - intros uid Hin. unfold nextSlots.
    pose proof (initial_map_lookup userIds uid Hin) as Hinit.
    revert Hinit. generalize (list_to_map ((λ id, (id, None)) <$> userIds)
                               : gmap string (option PublicSlot.t)).
    induction rows as [|row rows IH]; intros map Hmap; simpl; [by eexists|].
    destruct (decide (is_Some (nextSlot_step map row !! uid))) as [[v Hv]|Hno].
    + destruct v as [s|]; [|by apply IH].
      rewrite (nextSlots_bound_stays rows _ uid s) by done. by eexists.
    + exfalso. apply Hno. unfold nextSlot_step.
      destruct (SlotRow.user_id row) as [u|]; [|by eexists].
      destruct (truthy (Some u)); [|by eexists].
      destruct (nullish_at map u); [|by eexists].
      destruct (decide (u = uid)) as [->|Hne].
      * rewrite lookup_insert_eq. by eexists.
      * rewrite lookup_insert_ne by done. by eexists.
  - assert (Hsound : ∀ (seen todo : list SlotRow.t)
                       (map : gmap string (option PublicSlot.t)),
      (∀ uid s, map !! uid = Some (Some s) →
         ∃ r, r ∈ seen ++ todo ∧ SlotRow.user_id r = Some uid
              ∧ s = toPublicSlot uid r) →
      ∀ uid s, foldl nextSlot_step map todo !! uid = Some (Some s) →
        ∃ r, r ∈ seen ++ todo ∧ SlotRow.user_id r = Some uid
             ∧ s = toPublicSlot uid r).
    { intros seen todo. revert seen.
      induction todo as [|row todo IH]; intros seen map Hmap; [done|].
      simpl. replace (seen ++ row :: todo) with ((seen ++ [row]) ++ todo)
        by (by rewrite <- app_assoc).
      apply IH. replace ((seen ++ [row]) ++ todo) with (seen ++ row :: todo)
        by (by rewrite <- app_assoc).
      apply nextSlot_step_sound; [done|].
      apply elem_of_app. right. by left. }
    intros uid s Hs.
    destruct (Hsound [] rows
                (list_to_map ((λ id, (id, None)) <$> userIds))
                (λ uid s H, False_ind _ (initial_map_no_slot userIds uid s H))
                uid s Hs)
      as (r & Hr & Hu & ->).
    exists r. by repeat split.
Qed.

Lemma each_next_slot_witness :
  ∃ r, r ∈ [slot_u1_early; slot_nobody; slot_u1_late]
       ∧ SlotRow.user_id r = Some "u1"
       ∧ SlotRow.start_at r = "2025-02-01T10:00:00+00:00".
Proof.
  destruct (each_next_slot_is_a_row_of_its_user ["u1"; "u2"]
              [slot_u1_early; slot_nobody; slot_u1_late]) as [_ Hrow].
  destruct (Hrow "u1" (toPublicSlot "u1" slot_u1_early))
    as (r & Hr & Hu & _ & Hstart & _); [vm_compute; reflexivity|].
  exists r. split; [exact Hr|]. split; [exact Hu|]. by rewrite <- Hstart.
Defined.

(** ** A candidate's details *)

(** X21: the details dialog never shows a cached profile of somebody else: a
    candidate who is in the list is shown from the list without any
    request, and the profile shown is the first one listed under the
    requested id; only for an id that is not in the list a lookup goes
    out, and it asks for exactly that id. *)
Theorem cached_details_are_the_requested_candidate
    (allUsers : list ProfileRow.t) (userId : string)
    (reply : Reply ProfileRow.t) (d : DetailState) :
  let out := openProfileDetail allUsers userId reply d in
  detailOpen (fst out) = true
  ∧ (userId ∈ ProfileRow.user_id <$> allUsers →
     snd out = []
     ∧ ∃ i u, detailProfile (fst out) = Some u
              ∧ allUsers !! i = Some u ∧ ProfileRow.user_id u = userId
              ∧ ∀ j v, allUsers !! j = Some v →
                       ProfileRow.user_id v = userId → (i ≤ j)%nat)
  ∧ (userId ∉ ProfileRow.user_id <$> allUsers →
     out = (mkDetail true false (data reply), [select_profile userId])).
Proof.
  unfold openProfileDetail. simpl.
  destruct (list_find _ allUsers) as [[i u]|] eqn:Hfind; simpl.
  - apply list_find_Some in Hfind as (Hi & Hu & Hfirst).
    split; [done|]. split.
    + intros _. split; [done|]. exists i, u. repeat split; try done.
      intros j v Hj Hv. destruct (decide (i ≤ j)%nat) as [|Hlt]; [done|].
      exfalso. apply (Hfirst j v); [done|lia|done].
    + intros Hnot. destruct Hnot. apply list_elem_of_fmap. exists u.
      split; [done|]. by eapply list_elem_of_lookup_2.
  - apply list_find_None in Hfind. split; [done|]. split; [|done].
    intros (u & Hu & Hin)%list_elem_of_fmap.
    by eapply Forall_forall in Hfind.
Qed.

Lemma cached_details_witness :
  openProfileDetail [bob_profile; carol_profile] "carol" (mkReply None None)
    (mkDetail false false None)
  = (mkDetail true false (Some carol_profile), []).
Proof.
  destruct (cached_details_are_the_requested_candidate
              [bob_profile; carol_profile] "carol" (mkReply None None)
              (mkDetail false false None)) as (_ & Hcached & _).
  destruct Hcached as [Hnone _]; [vm_compute; right; left|].
  vm_compute. reflexivity.
Defined.

(** ** The user's slots stay in order *)

(** X26: the list of the user's own slots stays sorted by [start_at] (total and
    transitive collation): starting from a sorted list, any sequence of
    fetches (which hand back the rows in the order asked for), additions
    and deletions, successful or not, leaves it sorted. *)
Theorem own_slots_stay_sorted
    (localeCompare : string → string → Z) (getTime : string → option Z)
    (isoOf : Z → string) (now : Z) (st : PageState)
    (events : list SlotEvent) (p : SlotsPanel) :
  (∀ a b, localeCompare a b ≤ 0 ∨ localeCompare b a ≤ 0) →
  (∀ a b c, localeCompare a b ≤ 0 → localeCompare b c ≤ 0 →
            localeCompare a c ≤ 0) →
  Forall (fetch_in_order localeCompare) events →
  sorted_by (by_slot_start_at localeCompare) (slots p) →
  sorted_by (by_slot_start_at localeCompare)
    (slots (foldl (apply_slot_event localeCompare getTime isoOf now st)
              p events)).
Proof.
  intros Htot Htr Hevs. revert p.
  induction Hevs as [|ev events Hev Hevs IH]; intros p Hs; [done|].
  simpl. apply IH.
  destruct ev as [reply|reply startText endText area venue recurring
                 |slotId reply]; simpl in *.
  - destruct (error reply); [done|].
    destruct (data reply) as [rows|]; [|done]. by apply Hev.
  - unfold handleAddSlot. simpl.
    destruct (user st) as [uid|]; [|done].
    destruct (_ || _ || _); [done|].
    destruct (invalidRange _ _ _); [done|].
    destruct (pastAvailStart _ _ _); [done|].
    destruct (Date_toISOString getTime isoOf startText); [|done].
    destruct (Date_toISOString getTime isoOf endText); [|done].
    destruct (error reply); [done|].
    destruct (data reply) as [row|]; [|done]. simpl.
    apply Array_sort_sorted. intros a b. apply Htot.
  - unfold handleDeleteSlot.
    destruct slotId as [k|]; [|done].
    destruct (user st) as [uid|]; [|done].
    destruct (error reply); [done|]. simpl.
    apply sorted_by_filter; [|done]. intros a b c. apply Htr.
Qed.

Lemma own_slots_witness :
  slots (foldl (apply_slot_event codeUnitCompare millis isoOf_millis 1500 page0)
           panel_alice
           [ slot_added (mkReply (Some slot31) None) "2000" "2500" "13" "" false;
             slot_deleted (Some 30) (mkReply None None) ])
  = [slot31]
  ∧ sorted_by (by_slot_start_at codeUnitCompare)
      (slots (foldl
                (apply_slot_event codeUnitCompare millis isoOf_millis 1500 page0)
                panel_alice
                [ slot_added (mkReply (Some slot31) None)
                    "2000" "2500" "13" "" false;
                  slot_deleted (Some 30) (mkReply None None) ])).
Proof.
  split; [vm_compute; reflexivity|].
  apply own_slots_stay_sorted;
    [apply codeUnitCompare_total|apply codeUnitCompare_trans
    |by repeat constructor|show_sorted].
Defined.

(** ** Who may answer *)

(** X1: in the page with [respondMatch], a click on an answer button sends a
    status update exactly when the page is not busy and the match has an
    id, is pending and names the signed-in user as its receiver
    ([user_b]); the update then asks for the clicked answer, [confirmed] or
    [cancelled], for that id. *)
Theorem only_the_receiver_of_a_pending_match_can_answer
    (m : MatchRow.t) (next : Answer) (reply : Reply MatchRow.t)
    (st : PageState) (k : Z) (s : string) :
  update_match_status k s ∈ snd (respond_click m next reply st)
  ↔ (∃ me, user st = Some me ∧ me ≠ "" ∧ MatchRow.user_b m = Some me)
    ∧ MatchRow.status m = Some "pending"
    ∧ MatchRow.id m = Some k
    ∧ s = Answer_status next
    ∧ busy st = false.
Proof.
  split.
  - intros Hin.
    destruct (respond_click_update_only_by_receiver m next reply st k s Hin)
      as (Hme & Hp & Hid & _).
    split; [done|]. split; [done|]. split; [done|].
    unfold respond_click in Hin.
    destruct (canRespond st m) eqn:Hcan; [|by apply elem_of_nil in Hin].
    destruct (busy st); [by apply elem_of_nil in Hin|].
    simpl in Hin. rewrite Hid in Hin.
    rewrite bool_decide_eq_true_2 in Hin by eauto.
    unfold respondMatch in Hin. rewrite Hcan in Hin.
    apply handleMatchStatus_effects in Hin as (k' & _ & Heq).
    by simplify_eq.
  - intros ((me & Hu & Hne & Hb) & Hp & Hid & -> & Hbusy).
    unfold respond_click, respondMatch, canRespond, isReceiver,
      handleMatchStatus.
    rewrite Hu, Hb, Hp, Hid, Hbusy. simpl.
    rewrite !bool_decide_eq_true_2 by eauto. simpl. by left.
Qed.

Lemma only_the_receiver_witness :
  update_match_status 5 "cancelled"
    ∈ snd (respond_click m5 cancelled (mkReply None None) page_bob).
Proof.
  apply only_the_receiver_of_a_pending_match_can_answer.
  split; [by exists "bob"|done].
Defined.
